(** * k-NN JNI layer: the nmslib wrapper (jni/src/nmslib_wrapper.cpp)

    A shallow embedding of [CreateIndex], [LoadIndex] and [QueryIndex]:
    the in-place vector encoders on a buffer of 32-bit words, the JNI
    element buffers and native objects they acquire and release, and
    the draining of the backend's result queue. *)

From Stdlib Require Import ZArith Lia ZifyNat.
From stdpp Require Import base decidable option list numbers strings gmap sorting.

(** ** Machine words and floats

    A [jfloat] buffer is a sequence of 32-bit cells.  The encoders read a
    cell as a [float] and write cells as [int32_t] / [uint32_t] through
    [reinterpret_cast], so a cell is modelled by its bit pattern, a [Z]
    in [0, 2^32). *)

Definition u32 (x : Z) : Z := (x mod 2 ^ 32)%Z.

(** [elem != 0.0f] on an IEEE-754 binary32 value given by its bits: false
    exactly for +0.0 and -0.0 (every bit below the sign bit clear); NaN
    compares unequal to everything, so it counts as nonzero. *)
Definition float_ne_zero (bits : Z) : bool :=
  negb (Z.land bits 0x7fffffff =? 0)%Z.

(** ** Outcomes of native code

    [Throw] is a C++ exception in flight, [Undefined] an operation the
    language gives no meaning to (an access outside a buffer, the use of
    an uninitialised pointer). *)

Inductive outcome (A : Type) : Type :=
| Ok (a : A)
| Throw (what : string)
| Undefined.
Arguments Ok {A} a.
Arguments Throw {A} what.
Arguments Undefined {A}.

#[global] Instance outcome_ret : MRet outcome := fun A a => Ok a.
#[global] Instance outcome_bind : MBind outcome := fun A B k m =>
  match m with
  | Ok a => k a
  | Throw e => Throw e
  | Undefined => Undefined
  end.

(** [buf[i]] as an rvalue and as an lvalue, bounds made explicit. *)
Definition load (buf : list Z) (i : nat) : outcome Z :=
  match buf !! i with
  | Some x => Ok x
  | None => Undefined
  end.

Definition store (buf : list Z) (i : nat) (v : Z) : outcome (list Z) :=
  if decide (i < length buf) then Ok (<[i:=v]> buf) else Undefined.

(** [for (i = start; i < start + n; i++) s = body(i, s)]. *)
Fixpoint for_loop {St : Type} (body : nat → St → outcome St)
    (i n : nat) (s : St) : outcome St :=
  match n with
  | 0 => Ok s
  | S n' => s' ← body i s; for_loop body (S i) n' s'
  end.

(** ** The encoders of [CreateIndex] (lines 115-143) *)

Module Build.

(** Lines 118-123: one iteration of the [jaccard_sparse] loop. *)
Definition sparse_body (i : nat) (st : list Z * nat) : outcome (list Z * nat) :=
  let '(floatArrayCpp, numElems) := st in
  elem ← load floatArrayCpp i;
  if float_ne_zero elem then
    floatArrayCpp ← store floatArrayCpp numElems (Z.of_nat i);
    Ok (floatArrayCpp, S numElems)
  else Ok (floatArrayCpp, numElems).

(** Lines 130-141: one iteration of the [bit_jaccard] loop. *)
Definition bit_body (i : nat) (st : list Z * nat) : outcome (list Z * nat) :=
  let '(bitArray, numElems) := st in
  elem ← load bitArray i;
  let word := i / 32 in
  let shift := Nat.land i 31 in
  st ← (if decide (shift = 0) then
          bitArray ← store bitArray word 0%Z;
          Ok (bitArray, S numElems)
        else Ok (bitArray, numElems));
  let '(bitArray, numElems) := st in
  if float_ne_zero elem then
    w ← load bitArray word;
    bitArray ← store bitArray word
                 (u32 (Z.lor w (u32 (Z.shiftl 1 (Z.of_nat shift)))));
    Ok (bitArray, numElems)
  else Ok (bitArray, numElems).

(** Lines 115-143: the buffer after encoding and [numElems]. *)
Definition encode (spaceTypeCpp : string) (dim : nat) (floatArrayCpp : list Z)
    : outcome (list Z * nat) :=
  if String.eqb spaceTypeCpp "jaccard_sparse" then
    for_loop sparse_body 0 dim (floatArrayCpp, 0)
  else if String.eqb spaceTypeCpp "bit_jaccard" then
    if decide (dim < 2) then
      Throw "Dimension of vectors for bit_jaccard must be > 1!"
    else
      st ← for_loop bit_body 0 dim (floatArrayCpp, 0);
      let '(bitArray, numElems) := st in
      bitArray ← store bitArray numElems (u32 (Z.of_nat dim));
      Ok (bitArray, S numElems)
  else Ok (floatArrayCpp, dim).

End Build.

(** ** The encoders of [QueryIndex] (lines 227-255) *)

Module Query.

(** Lines 230-235. *)
Definition sparse_body (i : nat) (st : list Z * nat) : outcome (list Z * nat) :=
  let '(rawQueryvector, numElems) := st in
  elem ← load rawQueryvector i;
  if float_ne_zero elem then
    rawQueryvector ← store rawQueryvector numElems (Z.of_nat i);
    Ok (rawQueryvector, S numElems)
  else Ok (rawQueryvector, numElems).

(** Lines 242-253. *)
Definition bit_body (i : nat) (st : list Z * nat) : outcome (list Z * nat) :=
  let '(bitArray, numElems) := st in
  elem ← load bitArray i;
  let word := i / 32 in
  let shift := Nat.land i 31 in
  st ← (if decide (shift = 0) then
          bitArray ← store bitArray word 0%Z;
          Ok (bitArray, S numElems)
        else Ok (bitArray, numElems));
  let '(bitArray, numElems) := st in
  if float_ne_zero elem then
    w ← load bitArray word;
    bitArray ← store bitArray word
                 (u32 (Z.lor w (u32 (Z.shiftl 1 (Z.of_nat shift)))));
    Ok (bitArray, numElems)
  else Ok (bitArray, numElems).

(** Lines 227-255; [StrDesc] is [indexWrapper->space->StrDesc()]. *)
Definition encode (StrDesc : string) (dim : nat) (rawQueryvector : list Z)
    : outcome (list Z * nat) :=
  if String.eqb StrDesc "jaccard_sparse" then
    for_loop sparse_body 0 dim (rawQueryvector, 0)
  else if String.eqb StrDesc "bit_jaccard" then
    if decide (dim < 2) then
      Throw "Dimension of vectors for bit_jaccard must be > 1!"
    else
      st ← for_loop bit_body 0 dim (rawQueryvector, 0);
      let '(bitArray, numElems) := st in
      bitArray ← store bitArray numElems (u32 (Z.of_nat dim));
      Ok (bitArray, S numElems)
  else Ok (rawQueryvector, dim).

End Query.

(** ** Native state

    What a call can allocate and must give back: native objects on the
    C++ heap, and the element buffers that [Get<Type>ArrayElements] hands
    out for Java arrays. *)

(** [similarity::Object]: it owns a copy of [datalength] bytes of the
    buffer it is constructed from. *)
Record Object := { obj_id : Z; obj_label : Z; obj_data : list Z }.

Inductive native : Type :=
| NObject (o : Object)            (* similarity::Object *)
| NSpace (desc : string)          (* similarity::Space<float> *)
| NIndex (space : nat)            (* similarity::Index<float> over a space *)
| NWrapper (index space : nat).   (* knn_jni::nmslib_wrapper::IndexWrapper *)

Record World := {
  heap : gmap nat native;     (* live native objects, by address *)
  next : nat;                 (* the next address the allocator hands out *)
  made : nat;                 (* similarity::Object instances constructed so far *)
  jfloats : list (list Z);    (* the Java float arrays, by handle *)
  float_elems : list nat;     (* handles whose element buffer is outstanding *)
  int_elems : nat;            (* outstanding element buffers of the ids array *)
  stray_releases : nat        (* releases of a buffer that was not outstanding *)
}.

(** The world before any native call: nothing allocated, address 0 is
    the null pointer. *)
Definition fresh_world (arrays : list (list Z)) : World :=
  {| heap := ∅; next := 1; made := 0; jfloats := arrays;
     float_elems := []; int_elems := 0; stray_releases := 0 |}.

(** Nothing native is held. *)
Definition nothing_held (w : World) : Prop :=
  heap w = ∅ ∧ float_elems w = [] ∧ int_elems w = 0.

(** The collaborators the wrapper is handed: the JNI runtime behind
    [jniUtil] and the nmslib backend.  Each flag says whether the call
    of that name returns ([true]) or throws ([false]). *)
Record Env := {
  isCopy : bool;                    (* what [*isCopy] would have reported: is an
                                       element buffer a copy of the array, or
                                       the array's own storage? *)
  object_alloc_ok : nat → bool;     (* [new similarity::Object], by count *)
  int_elements_ok : bool;           (* jniUtil->GetIntArrayElements *)
  create_space_ok : bool;           (* SpaceFactoryRegistry::CreateSpace *)
  create_method_ok : bool;          (* MethodFactoryRegistry::CreateMethod *)
  create_index_ok : bool;           (* Index::CreateIndex *)
  save_index_ok : bool;             (* Index::SaveIndex *)
  load_index_ok : bool;             (* Index::LoadIndex *)
  set_query_time_params_ok : bool;  (* Index::SetQueryTimeParams *)
  search_ok : bool;                 (* Index::Search *)
  search_hits : Object → list (Z * Z)
                                    (* the (distance, id) pairs Search offers
                                       to the result queue, in that order *)
}.

(** ** Computations over a state, with exceptions *)

Definition M (St A : Type) : Type := St → outcome A * St.

#[global] Instance M_ret {St} : MRet (M St) := λ A a s, (Ok a, s).
#[global] Instance M_bind {St} : MBind (M St) := λ A B k m s,
  match m s with
  | (Ok a, s') => k a s'
  | (Throw e, s') => (Throw e, s')
  | (Undefined, s') => (Undefined, s')
  end.

Definition lift {St A} (o : outcome A) : M St A := λ s, (o, s).
Definition throw {St A} (what : string) : M St A := lift (Throw what).
Definition modify {St} (f : St → St) : M St unit := λ s, (Ok (), f s).

(** [try { body } catch (...) { handler; throw; }]. *)
Definition try_catch_rethrow {St A} (body : M St A) (handler : M St unit)
    : M St A := λ s,
  match body s with
  | (Throw e, s') =>
      match handler s' with
      | (Ok _, s'') => (Throw e, s'')
      | (Throw e', s'') => (Throw e', s'')
      | (Undefined, s'') => (Undefined, s'')
      end
  | r => r
  end.

(** A [std::unique_ptr] local: [cleanup] runs when the scope is left,
    by return or by exception. *)
Definition scoped {St A} (body : M St A) (cleanup : St → St) : M St A := λ s,
  match body s with
  | (Ok a, s') => (Ok a, cleanup s')
  | (Throw e, s') => (Throw e, cleanup s')
  | (Undefined, s') => (Undefined, s')
  end.

(** Run a computation on the world inside a frame that also has locals. *)
Definition in_world {L A} (m : M World A) : M (World * L) A := λ '(w, l),
  let '(r, w') := m w in (r, (w', l)).

Definition run_frame {L A} (m : M (World * L) A) (locals : L) : M World A :=
  λ w, let '(r, (w', _)) := m (w, locals) in (r, w').

Definition get_locals {L} : M (World * L) L := λ s, (Ok s.2, s).
Definition set_locals {L} (f : L → L) : M (World * L) unit :=
  modify (λ s, (s.1, f s.2)).

(** [for (int i = start; i < start + n; i++) body(i)] on a state. *)
Fixpoint for_range {St} (body : nat → M St unit) (i n : nat) : M St unit :=
  match n with
  | 0 => mret ()
  | S n' => body i;; for_range body (S i) n'
  end.

(** ** Field updates of the world *)

Definition with_heap (f : gmap nat native → gmap nat native) (w : World) :=
  {| heap := f (heap w); next := next w; made := made w; jfloats := jfloats w;
     float_elems := float_elems w; int_elems := int_elems w;
     stray_releases := stray_releases w |}.

Definition with_jfloats (f : list (list Z) → list (list Z)) (w : World) :=
  {| heap := heap w; next := next w; made := made w; jfloats := f (jfloats w);
     float_elems := float_elems w; int_elems := int_elems w;
     stray_releases := stray_releases w |}.

Definition with_float_elems (f : list nat → list nat) (w : World) :=
  {| heap := heap w; next := next w; made := made w; jfloats := jfloats w;
     float_elems := f (float_elems w); int_elems := int_elems w;
     stray_releases := stray_releases w |}.

Definition with_int_elems (f : nat → nat) (w : World) :=
  {| heap := heap w; next := next w; made := made w; jfloats := jfloats w;
     float_elems := float_elems w; int_elems := f (int_elems w);
     stray_releases := stray_releases w |}.

Definition stray_release (w : World) :=
  {| heap := heap w; next := next w; made := made w; jfloats := jfloats w;
     float_elems := float_elems w; int_elems := int_elems w;
     stray_releases := S (stray_releases w) |}.

(** ** The native heap *)

(** [new T(...)] once the constructor has run: a fresh address. *)
Definition alloc (o : native) : M World nat := λ w,
  (Ok (next w),
   {| heap := <[next w:=o]> (heap w); next := S (next w); made := made w;
      jfloats := jfloats w; float_elems := float_elems w;
      int_elems := int_elems w; stray_releases := stray_releases w |}).

(** [delete p] on a live object. *)
Definition free (p : nat) : World → World := with_heap (delete p).

(** [for (auto & it : dataset) delete it;] *)
Definition free_all (ptrs : list nat) : World → World :=
  with_heap (λ h, foldl (λ h p, delete p h) h ptrs).

(** [new similarity::Object(id, label, numElems * sizeof(float), data)]:
    the constructor copies the first [numElems] cells of [data]. *)
Definition new_Object (env : Env) (id label : Z) (numElems : nat)
    (data : list Z) : M World nat := λ w,
  if object_alloc_ok env (made w) then
    if decide (numElems ≤ length data) then
      alloc (NObject {| obj_id := id; obj_label := label;
                        obj_data := take numElems data |})
        {| heap := heap w; next := next w; made := S (made w);
           jfloats := jfloats w; float_elems := float_elems w;
           int_elems := int_elems w; stray_releases := stray_releases w |}
    else (Undefined, w)
  else (Throw "std::bad_alloc", w).

(** ** The JNI calls made through [jniUtil]

    [jniUtil]'s methods are defined outside this file; each hands its
    arguments to the JNI function of the same name.  A Java array is named
    by a handle, its index in [jfloats].  A call that the runtime rejects
    (a handle that names no array, an index outside an object array)
    leaves a pending Java exception, which [jniUtil] turns into a C++
    exception.  Which element buffers are outstanding is recorded in the
    world, so that a call that ends without releasing one can be told. *)

Definition GetObjectArrayElement (vectorsJ : list nat) (i : nat) : M World nat :=
  match vectorsJ !! i with
  | Some floatArrayJ => mret floatArrayJ
  | None => throw "java.lang.ArrayIndexOutOfBoundsException"
  end.

Definition GetJavaFloatArrayLength (arrayJ : nat) : M World nat := λ w,
  match jfloats w !! arrayJ with
  | Some a => (Ok (length a), w)
  | None => (Throw "Unable to get array length", w)
  end.

(** Modelled from the spec: [GetInnerDimensionOf2dJavaFloatArray] is declared
    in jni_util.h and defined outside this file; the spec's dimension D of a
    build is the length of the first vector, and an empty batch has none. *)
Definition GetInnerDimensionOf2dJavaFloatArray (vectorsJ : list nat)
    : M World nat :=
  match vectorsJ with
  | [] => mret 0
  | first :: _ => GetJavaFloatArrayLength first
  end.

(** [GetFloatArrayElements(env, arrayJ, nullptr)]: the contents of the
    array, as an element buffer that stays outstanding until released. *)
Definition GetFloatArrayElements (arrayJ : nat) : M World (list Z) := λ w,
  match jfloats w !! arrayJ with
  | Some a => (Ok a, with_float_elems (cons arrayJ) w)
  | None => (Throw "Unable to get float array elements", w)
  end.

Fixpoint remove_first (h : nat) (l : list nat) : list nat :=
  match l with
  | [] => []
  | x :: l' => if decide (x = h) then l' else x :: remove_first h l'
  end.

(** [ReleaseFloatArrayElements(env, arrayJ, elems, JNI_ABORT)]: the buffer
    is given back and nothing is copied back into the array. *)
Definition ReleaseFloatArrayElements (arrayJ : nat) : M World unit := λ w,
  if decide (arrayJ ∈ float_elems w) then
    (Ok (), with_float_elems (remove_first arrayJ) w)
  else (Ok (), stray_release w).

(** The stores of an in-place encoding land in the element buffer.  When
    the buffer is the array's own storage ([isCopy] false) they are stores
    into the Java array; when it is a copy the array is not touched. *)
Definition stored_in_place (env : Env) (arrayJ : nat) (elems : list Z)
    : M World unit :=
  modify (λ w, if isCopy env then w
               else with_jfloats (λ arrays, <[arrayJ:=elems]> arrays) w).

(** [GetIntArrayElements(env, idsJ, nullptr)]: the ids, as an element
    buffer that stays outstanding until released; when the runtime has no
    buffer to hand out, [jniUtil] throws. *)
Definition GetIntArrayElements (env : Env) (idsJ : list Z)
    : M World (list Z) := λ w,
  if int_elements_ok env then (Ok idsJ, with_int_elems S w)
  else (Throw "Unable to get integer array elements", w).

(** [ReleaseIntArrayElements(env, idsJ, idsCpp, JNI_ABORT)]. *)
Definition ReleaseIntArrayElements : M World unit := λ w,
  match int_elems w with
  | S n => (Ok (), with_int_elems (λ _, n) w)
  | 0 => (Ok (), stray_release w)
  end.

(** ** The nmslib backend, as far as the wrapper sees it *)

Definition backend_call {St} (ok : bool) (what : string) : M St unit :=
  if ok then mret () else throw what.

Definition CreateSpace (env : Env) (spaceType : string) : M World nat :=
  if create_space_ok env then alloc (NSpace spaceType)
  else throw "CreateSpace failed".

Definition CreateMethod (env : Env) (space : nat) : M World nat :=
  if create_method_ok env then alloc (NIndex space)
  else throw "CreateMethod failed".

(** Order of two float distances given by their bits, through a key that
    is monotone on all values that are not NaN (and sends both zeros to 0). *)
Definition float_key (bits : Z) : Z :=
  let magnitude := Z.land bits 0x7fffffff in
  if Z.testbit bits 31 then (- magnitude)%Z else magnitude.

Definition float_lt (a b : Z) : bool := (float_key a <? float_key b)%Z.

(** Modelled from the spec: [similarity::KNNQueue] is nmslib's; the spec
    describes it as a bounded max-priority structure that retains the k
    lowest-distance candidates offered to it, whose top is the current
    maximum distance, and whose pop removes that maximum.  The items are
    (distance, id) pairs kept farthest first. *)
Record KNNQueue := { queue_K : nat; queue_items : list (Z * Z) }.

Fixpoint insert_farthest_first (d id : Z) (items : list (Z * Z))
    : list (Z * Z) :=
  match items with
  | [] => [(d, id)]
  | (d', id') :: rest =>
      if float_lt d' d then (d, id) :: items
      else (d', id') :: insert_farthest_first d id rest
  end.

Definition Size (q : KNNQueue) : nat := length (queue_items q).

Definition Push (d id : Z) (q : KNNQueue) : KNNQueue :=
  if decide (Size q < queue_K q) then
    {| queue_K := queue_K q;
       queue_items := insert_farthest_first d id (queue_items q) |}
  else
    match queue_items q with
    | (top, _) :: rest =>
        if float_lt d top then
          {| queue_K := queue_K q;
             queue_items := insert_farthest_first d id rest |}
        else q
    | [] => q
    end.

Definition TopDistance (q : KNNQueue) : outcome Z :=
  match queue_items q with
  | (d, _) :: _ => Ok d
  | [] => Undefined
  end.

(** [Pop()->id()] and the queue that is left. *)
Definition Pop (q : KNNQueue) : outcome (Z * KNNQueue) :=
  match queue_items q with
  | (_, id) :: rest => Ok (id, {| queue_K := queue_K q; queue_items := rest |})
  | [] => Undefined
  end.

(** [KNNQuery knnQuery(space, queryObject, k); index->Search(&knnQuery)]:
    the result queue after the backend has offered its hits. *)
Definition offer_all (k : nat) (hits : list (Z * Z)) : KNNQueue :=
  foldl (λ q hit, Push hit.1 hit.2 q) {| queue_K := k; queue_items := [] |} hits.

Definition Search (env : Env) (queryObject : Object) (k : nat)
    : M World KNNQueue :=
  backend_call (search_ok env) "Search failed";;
  mret (offer_all k (search_hits env queryObject)).

(** ** [CreateIndex] (lines 86-166)

    The model starts once the arguments are known to be non-null and the
    parameter map has been read: [spaceTypeCpp] is the translated space
    name, [idsJ] the ids array, [vectorsJ] the object array of float-array
    handles. *)

(** The locals that the [catch] block of [CreateIndex] reads; [idsCpp]
    is declared without an initialiser. *)
Record CreateLocals := { dataset : list nat; idsCpp : option (list Z) }.

(** [dataset.push_back(p)]; the growth of the vector is taken not to
    fail. *)
Definition push_back (p : nat) (l : CreateLocals) : CreateLocals :=
  {| dataset := dataset l ++ [p]; idsCpp := idsCpp l |}.

Definition assign_idsCpp (ids : list Z) (l : CreateLocals) : CreateLocals :=
  {| dataset := dataset l; idsCpp := Some ids |}.

(** Reading the pointer [idsCpp]. *)
Definition read_idsCpp : M (World * CreateLocals) (list Z) :=
  l ← get_locals;
  match idsCpp l with
  | Some ids => mret ids
  | None => lift Undefined
  end.

(** Lines 107-146: the body of the loop over the vectors. *)
Definition read_vector (env : Env) (spaceTypeCpp : string)
    (vectorsJ : list nat) (dim : nat) (i : nat) : M (World * CreateLocals) unit :=
  floatArrayJ ← in_world (GetObjectArrayElement vectorsJ i);
  len ← in_world (GetJavaFloatArrayLength floatArrayJ);
  if decide (dim ≠ len) then throw "Dimension of vectors is inconsistent"
  else
    floatArrayCpp ← in_world (GetFloatArrayElements floatArrayJ);
    '(floatArrayCpp, numElems) ← lift (Build.encode spaceTypeCpp dim floatArrayCpp);
    in_world (stored_in_place env floatArrayJ floatArrayCpp);;
    ids ← read_idsCpp;
    id ← lift (load ids i);
    object ← in_world (new_Object env id (-1) numElems floatArrayCpp);
    set_locals (push_back object);;
    in_world (ReleaseFloatArrayElements floatArrayJ).

(** Lines 158-165: the [catch (...)] block, before it rethrows. *)
Definition CreateIndex_cleanup : M (World * CreateLocals) unit :=
  l ← get_locals;
  in_world (modify (free_all (dataset l)));;
  _ ← read_idsCpp;
  in_world ReleaseIntArrayElements.

(** Lines 100-157: the [try] block. *)
Definition CreateIndex_try (env : Env) (idsJ : list Z) (vectorsJ : list nat)
    (spaceTypeCpp : string) (space dim : nat) : M (World * CreateLocals) unit :=
  ids ← in_world (GetIntArrayElements env idsJ);
  set_locals (assign_idsCpp ids);;
  for_range (read_vector env spaceTypeCpp vectorsJ dim) 0 (length vectorsJ);;
  in_world ReleaseIntArrayElements;;
  index ← in_world (CreateMethod env space);
  scoped
    (backend_call (create_index_ok env) "CreateIndex failed";;
     backend_call (save_index_ok env) "SaveIndex failed";;
     l ← get_locals;
     in_world (modify (free_all (dataset l))))
    (λ s, (free index s.1, s.2)).

Definition CreateIndex (env : Env) (idsJ : list Z) (vectorsJ : list nat)
    (spaceTypeCpp : string) : M World unit :=
  space ← CreateSpace env spaceTypeCpp;
  scoped
    (let numVectors := length vectorsJ in
     let numIds := length idsJ in
     if decide (numIds ≠ numVectors) then
       throw "Number of IDs does not match number of vectors"
     else
       dim ← GetInnerDimensionOf2dJavaFloatArray vectorsJ;
       run_frame
         (try_catch_rethrow
            (CreateIndex_try env idsJ vectorsJ spaceTypeCpp space dim)
            CreateIndex_cleanup)
         {| dataset := []; idsCpp := None |})
    (free space).

(** ** [LoadIndex] (lines 196-207) and [Free] *)

(** Modelled from the spec: [IndexWrapper] is declared in nmslib_wrapper.h;
    per the spec a handle owns a space object and an index object built
    over it, the space constructed first.  When the constructor throws,
    C++ destroys the members already built and frees the storage, and the
    [new] expression yields no pointer. *)
Definition new_IndexWrapper (env : Env) (spaceType : string) : M World nat :=
  space ← CreateSpace env spaceType;
  index ← try_catch_rethrow (CreateMethod env space) (modify (free space));
  alloc (NWrapper index space).

(** [delete indexWrapper]: the handle's index, its space, then the handle
    itself; a null pointer is left alone, anything else is not a handle. *)
Definition delete_IndexWrapper (indexWrapper : nat) : M World unit := λ w,
  if decide (indexWrapper = 0) then (Ok (), w)
  else
    match heap w !! indexWrapper with
    | Some (NWrapper index space) =>
        (Ok (), free indexWrapper (free space (free index w)))
    | _ => (Undefined, w)
    end.

(** The [catch (...)] block of [LoadIndex]: [indexWrapper] is declared
    without an initialiser, and is assigned only if [new] returns. *)
Definition LoadIndex_cleanup : M (World * option nat) unit :=
  indexWrapper ← get_locals;
  match indexWrapper with
  | Some p => in_world (delete_IndexWrapper p)
  | None => lift Undefined
  end.

Definition LoadIndex (env : Env) (spaceTypeCpp : string) : M World nat :=
  run_frame
    (try_catch_rethrow
       (p ← in_world (new_IndexWrapper env spaceTypeCpp);
        set_locals (λ _, Some p);;
        backend_call (load_index_ok env) "LoadIndex failed";;
        backend_call (set_query_time_params_ok env) "SetQueryTimeParams failed")
       LoadIndex_cleanup;;
     indexWrapper ← get_locals;
     match indexWrapper with
     | Some p => mret p
     | None => lift Undefined
     end)
    None.

Definition Free (indexPointerJ : nat) : M World unit :=
  delete_IndexWrapper indexPointerJ.

(** ** [QueryIndex] (lines 217-287)

    [queryVectorJ] is the handle of the query vector, known to be
    non-null; [indexPointerJ] is the address that [LoadIndex] returned. *)

(** [indexWrapper->index] and [indexWrapper->space], through the pointer
    that [reinterpret_cast] made of the handle. *)
Definition deref_IndexWrapper (indexWrapper : nat) : M World (nat * nat) := λ w,
  match heap w !! indexWrapper with
  | Some (NWrapper index space) => (Ok (index, space), w)
  | _ => (Undefined, w)
  end.

(** Modelled from the spec: [Space::StrDesc] is nmslib's; the spec has the
    query encoded by the handle's space type, so a space reports the name
    it was created under. *)
Definition StrDesc (space : nat) : M World string := λ w,
  match heap w !! space with
  | Some (NSpace desc) => (Ok desc, w)
  | _ => (Undefined, w)
  end.

Definition object_at (p : nat) : M World Object := λ w,
  match heap w !! p with
  | Some (NObject o) => (Ok o, w)
  | _ => (Undefined, w)
  end.

(** Lines 281-284: one iteration of the loop that drains the queue into
    the result array; a result is the pair (id, distance). *)
Definition drain_body (i : nat) (st : KNNQueue * list (option (Z * Z)))
    : outcome (KNNQueue * list (option (Z * Z))) :=
  let '(neighbors, results) := st in
  distance ← TopDistance neighbors;
  '(id, neighbors) ← Pop neighbors;
  if decide (i < length results) then
    Ok (neighbors, <[i:=Some (id, distance)]> results)
  else Throw "java.lang.ArrayIndexOutOfBoundsException".

Definition QueryIndex (env : Env) (indexPointerJ queryVectorJ kJ : nat)
    : M World (list (option (Z * Z))) :=
  if decide (indexPointerJ = 0) then throw "Invalid pointer to index"
  else
    dim ← GetJavaFloatArrayLength queryVectorJ;
    rawQueryvector ← GetFloatArrayElements queryVectorJ;
    '(index, space) ← deref_IndexWrapper indexPointerJ;
    desc ← StrDesc space;
    '(rawQueryvector, numElems) ← lift (Query.encode desc dim rawQueryvector);
    stored_in_place env queryVectorJ rawQueryvector;;
    queryObject ← try_catch_rethrow
                    (new_Object env (-1) (-1) numElems rawQueryvector)
                    (ReleaseFloatArrayElements queryVectorJ);
    scoped
      (ReleaseFloatArrayElements queryVectorJ;;
       object ← object_at queryObject;
       neighbors ← Search env object kJ;
       let resultSize := Size neighbors in
       '(_, results) ← lift (for_loop drain_body 0 resultSize
                               (neighbors, replicate resultSize None));
       mret results)
      (free queryObject).

(** ** What the encoders are meant to produce *)

(** Is entry [i] of the raw vector nonzero? *)
Definition is_set (input : list Z) (i : nat) : bool :=
  default false (float_ne_zero <$> input !! i).

(** The indices below [n] whose entry is nonzero, in ascending order. *)
Definition sparse_indices (input : list Z) (n : nat) : list nat :=
  List.filter (is_set input) (seq 0 n).

(** Bit [k] of packed word [w] once the first [n] entries are packed. *)
Definition packed_bit (input : list Z) (n w : nat) (k : Z) : bool :=
  bool_decide (0 ≤ k < 32)%Z
  && bool_decide (32 * w + Z.to_nat k < n)
  && is_set input (32 * w + Z.to_nat k).

(** [ceil(D/32)]: the number of 32-bit words that hold [D] bits. *)
Definition words_for (D : nat) : nat := (D + 31) / 32.

(** ** Specifications of computations

    [triple P m Q E U]: from a state in [P], [m] ends in [Q] when it
    returns, in [E] when it throws, in [U] when it runs into undefined
    behaviour. *)
Definition triple {St A} (P : St → Prop) (m : M St A)
    (Q : A → St → Prop) (E U : St → Prop) : Prop :=
  ∀ s, P s →
    match m s with
    | (Ok a, s') => Q a s'
    | (Throw _, s') => E s'
    | (Undefined, s') => U s'
    end.

(** No address from [next] on is in use. *)
Definition wf (w : World) : Prop := ∀ p, next w ≤ p → heap w !! p = None.



(** A call on the world that leaves the Java arrays alone. *)
Definition keeps_arrays {A} (m : M World A) : Prop :=
  ∀ w, jfloats (m w).2 = jfloats w.

(** ** Orders on result lists

    A result is an (id, distance) pair, a queue item a (distance, id)
    pair. *)

(** No result is closer than one that comes after it. *)
Definition farthest_first (results : list (Z * Z)) : Prop :=
  StronglySorted (λ a b, (float_key b.2 ≤ float_key a.2)%Z) results.

(** No result is farther than one that comes after it. *)
Definition nearest_first (results : list (Z * Z)) : Prop :=
  StronglySorted (λ a b, (float_key a.2 ≤ float_key b.2)%Z) results.

Definition items_farthest_first (items : list (Z * Z)) : Prop :=
  StronglySorted (λ a b, (float_key b.1 ≤ float_key a.1)%Z) items.

(** The result made of a queue item. *)
Definition result_of (item : Z * Z) : Z * Z := (item.2, item.1).

(** ** Scenarios *)

Definition float_one : Z := 0x3f800000%Z.     (* 1.0f *)
Definition float_sqrt2 : Z := 0x3fb504f3%Z.   (* sqrt(2) rounded to float *)

(** A runtime and backend in which every call returns, except as the
    flags say; [copies] is what [isCopy] reports.  The backend holds the
    vectors [1,0], [0,1], [1,1] under the ids 1, 2, 3 and the l2 space, and
    offers them by id to a query for [1,0]. *)
Definition backend (copies space_ok method_ok objects_ok : bool) : Env :=
  {| isCopy := copies;
     object_alloc_ok := λ _, objects_ok;
     int_elements_ok := true;
     create_space_ok := space_ok;
     create_method_ok := method_ok;
     create_index_ok := true;
     save_index_ok := true;
     load_index_ok := true;
     set_query_time_params_ok := true;
     search_ok := true;
     search_hits := λ _, [(0, 1); (float_sqrt2, 2); (float_one, 3)]%Z |}.

(** The world in which an index over [spaceType] has been loaded (its
    handle is address 3) and the Java array 0 is [query]. *)
Definition loaded (spaceType : string) (query : list Z) : World :=
  (LoadIndex (backend true true true true) spaceType (fresh_world [query])).2.



(** A batch of two vectors of dimension 2. *)
Definition two_vectors : World :=
  fresh_world [[float_one; 0]; [0; float_one]]%Z.

(** ** [TranslateSpaceType] (lines 298-328) and the entry to [LoadIndex]
    (lines 185-198) *)

(** The space-type names that [TranslateSpaceType] compares with.  They
    are constants of [knn_jni], defined outside this file; everything
    proved about the translation holds whatever strings they are. *)
Record Names := {
  L2 : string;
  L1 : string;
  LINF : string;
  COSINESIMIL : string;
  INNER_PRODUCT : string;
  NEG_DOT_PRODUCT : string
}.

Definition TranslateSpaceType (names : Names) (spaceType : string)
    : outcome string :=
  if String.eqb spaceType (L2 names) then Ok spaceType
  else if String.eqb spaceType (L1 names) then Ok spaceType
  else if String.eqb spaceType (LINF names) then Ok spaceType
  else if String.eqb spaceType (COSINESIMIL names) then Ok spaceType
  else if String.eqb spaceType (INNER_PRODUCT names) then
    Ok (NEG_DOT_PRODUCT names)
  else if String.eqb spaceType "bit_jaccard" then Ok "bit_jaccard"
  else if String.eqb spaceType "jaccard_sparse" then Ok "jaccard_sparse"
  else Throw "Invalid spaceType".

(** The names that the comparisons of [TranslateSpaceType] mention. *)
Definition recognised (names : Names) : list string :=
  [L2 names; L1 names; LINF names; COSINESIMIL names; INNER_PRODUCT names;
   "bit_jaccard"; "jaccard_sparse"].

(** Lines 185-207 of [LoadIndex]: the space type read from the parameter
    map is translated, the query parameters are parsed ([queryParams] is
    what lines 188-194 come to: the list of parameters, or the exception
    of a conversion), and the handle is built under the translated
    name. *)
Definition LoadIndex_translated (names : Names) (env : Env)
    (spaceTypeCpp : string) (queryParams : outcome (list string))
    : M World nat :=
  spaceTypeCpp ← lift (TranslateSpaceType names spaceTypeCpp);
  _ ← lift queryParams;
  LoadIndex env spaceTypeCpp.

(** Modelled from the spec: the names under which callers select a space
    type are l2, l1, linf, cosinesimil and innerproduct; an inner-product
    index is kept by the backend as a negated dot product, which nmslib
    calls negdotprod. *)
Definition knn_jni_names : Names :=
  {| L2 := "l2"; L1 := "l1"; LINF := "linf"; COSINESIMIL := "cosinesimil";
     INNER_PRODUCT := "innerproduct"; NEG_DOT_PRODUCT := "negdotprod" |}.

(** ** Batches that can be built *)

(** Every vector of the batch is a Java array of [D] floats. *)
Definition batch_of_dimension (vectorsJ : list nat) (D : nat) (w : World)
    : Prop :=
  ∀ arrayJ, arrayJ ∈ vectorsJ →
    ∃ a, jfloats w !! arrayJ = Some a ∧ length a = D.

(** No allocation fails, the runtime hands out the ids, and the backend
    constructs the space and the index, builds it and saves it. *)
Definition build_succeeds (env : Env) : Prop :=
  (∀ n, object_alloc_ok env n = true)
  ∧ int_elements_ok env = true
  ∧ create_space_ok env = true ∧ create_method_ok env = true
  ∧ create_index_ok env = true ∧ save_index_ok env = true.

(** ** Reading an encoding back

    What a set or bit comparison sees in an encoded vector: for each
    dimension, whether it is present. *)

(** The membership vector of dimension [D] that a list of indices stands
    for. *)
Definition sparse_decode (D : nat) (indices : list Z) : list bool :=
  (λ i, bool_decide (Z.of_nat i ∈ indices)) <$> seq 0 D.

(** The bits that a packed vector stands for: the dimension is read from
    the last word, bit [i mod 32] of word [i / 32] is entry [i]. *)
Definition bit_decode (encoded : list Z) : list bool :=
  (λ i, Z.testbit (encoded !!! (i / 32)) (Z.of_nat (i mod 32)))
    <$> seq 0 (Z.to_nat (default 0%Z (last encoded))).

(** The encoded vector that is handed to [similarity::Object]: the first
    [numElems] cells of the buffer. *)
Definition encoded (r : outcome (list Z * nat)) : outcome (list Z) :=
  match r with
  | Ok (buf, numElems) => Ok (take numElems buf)
  | Throw what => Throw what
  | Undefined => Undefined
  end.

(** ** Specifications that tell exceptions apart

    [triple_what P m Q E U] is [triple] with an exceptional postcondition
    that depends on what was thrown. *)
Definition triple_what {St A} (P : St → Prop) (m : M St A)
    (Q : A → St → Prop) (E : string → St → Prop) (U : St → Prop) : Prop :=
  ∀ s, P s →
    match m s with
    | (Ok a, s') => Q a s'
    | (Throw what, s') => E what s'
    | (Undefined, s') => U s'
    end.

(** The exceptions of [CreateIndex] that are thrown between the
    acquisition of a vector's element buffer and its release. *)
Definition thrown_while_holding (what : string) : Prop :=
  what = "Dimension of vectors for bit_jaccard must be > 1!"
  ∨ what = "std::bad_alloc".

(** The element buffers outstanding after an exception [what], given
    that [held] were outstanding before the call: one more, of one of the
    vectors, exactly when the exception was thrown while holding it. *)
Definition buffers_after_throw (vectorsJ held : list nat) (what : string)
    (w : World) : Prop :=
  (thrown_while_holding what
   ∧ ∃ arrayJ, arrayJ ∈ vectorsJ ∧ float_elems w = arrayJ :: held)
  ∨ (¬ thrown_while_holding what ∧ float_elems w = held).

(** * Theorems *)

#[local] Arguments Nat.div : simpl never.
#[local] Arguments Nat.modulo : simpl never.
#[local] Arguments Z.of_nat : simpl never.

(** Let [lia] reason about division and remainder by a constant. *)
Ltac Zify.zify_post_hook ::= Z.div_mod_to_equations.

Lemma for_loop_snoc {St : Type} (body : nat → St → outcome St) n i s :
  for_loop body i (S n) s = for_loop body i n s ≫= body (i + n).
Proof.
  revert i s. induction n as [|n IH]; intros i s.
  - simpl. rewrite Nat.add_0_r. destruct (body i s); reflexivity.
  - change (for_loop body i (S (S n)) s)
      with (body i s ≫= for_loop body (S i) (S n)).
    change (for_loop body i (S n) s) with (body i s ≫= for_loop body (S i) n).
    destruct (body i s) as [s'| |]; simpl; [|reflexivity..].
    rewrite <- Nat.add_succ_comm. apply IH.
Qed.

Lemma load_lookup buf i x : buf !! i = Some x → load buf i = Ok x.
Proof. unfold load. intros ->. reflexivity. Qed.

Lemma store_lt buf i v : i < length buf → store buf i v = Ok (<[i:=v]> buf).
Proof. unfold store. intros H. rewrite decide_True; auto. Qed.

Lemma is_set_lookup input i x :
  input !! i = Some x → is_set input i = float_ne_zero x.
Proof. unfold is_set. intros ->. reflexivity. Qed.

Lemma sparse_indices_S input n :
  sparse_indices input (S n) =
  sparse_indices input n ++ (if is_set input n then [n] else []).
Proof.
  unfold sparse_indices. rewrite seq_S, List.filter_app. simpl.
  destruct (is_set input n); reflexivity.
Qed.

Lemma sparse_indices_length_le input n : length (sparse_indices input n) ≤ n.
Proof.
  unfold sparse_indices.
  etransitivity; [apply List.filter_length_le|]. rewrite length_seq. lia.
Qed.

(** The state of the [jaccard_sparse] loop after [n] iterations. *)
Lemma sparse_loop_inv (input : list Z) n :
  n ≤ length input →
  ∃ buf, for_loop Build.sparse_body 0 n (input, 0)
           = Ok (buf, length (sparse_indices input n))
    ∧ length buf = length input
    ∧ take (length (sparse_indices input n)) buf
        = Z.of_nat <$> sparse_indices input n
    ∧ ∀ j, length (sparse_indices input n) ≤ j → buf !! j = input !! j.
Proof.
  induction n as [|n IH]; intros Hn.
  - exists input. repeat split; reflexivity.
  - destruct IH as (buf & Hrun & Hlen & Htake & Hrest); [lia|].
    rewrite for_loop_snoc, Hrun. simpl.
    destruct (lookup_lt_is_Some_2 input n) as [x Hx]; [lia|].
    unfold Build.sparse_body.
    pose proof (sparse_indices_length_le input n) as Hle.
    rewrite (load_lookup buf n x) by (rewrite Hrest by lia; exact Hx).
    rewrite sparse_indices_S, (is_set_lookup _ _ _ Hx).
    simpl. destruct (float_ne_zero x).
    + rewrite store_lt by lia. simpl.
      exists (<[length (sparse_indices input n):=Z.of_nat n]> buf).
      rewrite length_app, Nat.add_1_r. split; [reflexivity|].
      split; [rewrite length_insert; exact Hlen|]. split.
      * rewrite (take_S_r _ _ (Z.of_nat n))
          by (apply list_lookup_insert_eq; lia).
        rewrite take_insert_ge, Htake, fmap_app by lia. reflexivity.
      * intros j Hj. rewrite list_lookup_insert_ne by lia. apply Hrest. lia.
    + exists buf. rewrite app_nil_r. split; [reflexivity|].
      split; [exact Hlen|]. split; [exact Htake|].
      intros j Hj. apply Hrest. lia.
Qed.

Lemma land_31 i : Nat.land i 31 = i mod 32.
Proof. change 31 with (Nat.ones 5). rewrite Nat.land_ones. reflexivity. Qed.

Lemma u32_testbit x k :
  Z.testbit (u32 x) k = bool_decide (0 ≤ k < 32)%Z && Z.testbit x k.
Proof.
  unfold u32. destruct (decide (0 ≤ k < 32)%Z) as [Hk|Hk].
  - rewrite bool_decide_eq_true_2 by exact Hk.
    apply Z.mod_pow2_bits_low. lia.
  - rewrite bool_decide_eq_false_2 by exact Hk. simpl.
    destruct (decide (k < 0)%Z).
    + apply Z.testbit_neg_r. lia.
    + apply Z.mod_pow2_bits_high. lia.
Qed.

Lemma set_bit_testbit x s k :
  (0 ≤ s < 32)%Z →
  Z.testbit (u32 (Z.lor x (u32 (Z.shiftl 1 s)))) k
  = bool_decide (0 ≤ k < 32)%Z && (Z.testbit x k || bool_decide (k = s)).
Proof.
  intros Hs. rewrite u32_testbit, Z.lor_spec, u32_testbit, Z.shiftl_1_l.
  destruct (decide (0 ≤ k < 32)%Z) as [Hk|Hk];
    [rewrite bool_decide_eq_true_2 by exact Hk
    |rewrite bool_decide_eq_false_2 by exact Hk; reflexivity].
  simpl. rewrite Z.pow2_bits_eqb by lia. f_equal.
  destruct (decide (k = s)) as [->|Hne].
  - rewrite Z.eqb_refl, bool_decide_eq_true_2; reflexivity.
  - rewrite bool_decide_eq_false_2 by exact Hne. apply Z.eqb_neq. lia.
Qed.

Lemma packed_bit_S input n w k :
  packed_bit input (S n) w k
  = packed_bit input n w k
    || (bool_decide (0 ≤ k < 32)%Z && bool_decide (32 * w + Z.to_nat k = n)
        && is_set input n).
Proof.
  unfold packed_bit.
  destruct (bool_decide (0 ≤ k < 32)%Z); [simpl|reflexivity].
  destruct (decide (32 * w + Z.to_nat k = n)) as [<-|Hne].
  - rewrite bool_decide_eq_true_2 by lia.
    rewrite (bool_decide_eq_false_2 (_ < _)) by lia.
    rewrite bool_decide_eq_true_2 by reflexivity. reflexivity.
  - rewrite (bool_decide_eq_false_2 (_ = _)) by exact Hne.
    rewrite orb_false_r.
    destruct (decide (32 * w + Z.to_nat k < n)).
    + rewrite !bool_decide_eq_true_2 by lia. reflexivity.
    + rewrite !bool_decide_eq_false_2 by lia. reflexivity.
Qed.

Lemma packed_bit_ge input n w k : n ≤ 32 * w → packed_bit input n w k = false.
Proof.
  intros H. unfold packed_bit.
  rewrite (bool_decide_eq_false_2 (_ < _)) by lia.
  rewrite andb_false_r. reflexivity.
Qed.

(** The state of the [bit_jaccard] loop after [n] iterations: the words
    written so far hold the first [n] bits, the cells after them are
    still the input. *)
Lemma bit_loop_inv (input : list Z) n :
  n ≤ length input →
  ∃ buf, for_loop Build.bit_body 0 n (input, 0) = Ok (buf, (n + 31) / 32)
    ∧ length buf = length input
    ∧ (∀ j, (n + 31) / 32 ≤ j → buf !! j = input !! j)
    ∧ ∀ w, w < (n + 31) / 32 →
        ∃ x, buf !! w = Some x ∧ ∀ k, Z.testbit x k = packed_bit input n w k.
Proof.
  induction n as [|n IH]; intros Hn.
  - exists input. split; [reflexivity|]. split; [reflexivity|].
    split; [reflexivity|]. intros w Hw. simpl in Hw. lia.
  - destruct IH as (buf & Hrun & Hlen & Hrest & Hbits); [lia|].
    rewrite for_loop_snoc, Hrun. simpl.
    destruct (lookup_lt_is_Some_2 input n) as [e He]; [lia|].
    unfold Build.bit_body.
    rewrite (load_lookup buf n e) by (rewrite Hrest by lia; exact He).
    simpl. rewrite land_31.
    assert (Hword : n `div` 32 ≤ n) by (apply Nat.Div0.div_le_upper_bound; lia).
    pose proof (Nat.div_mod_eq n 32) as Hdm.
    pose proof (Nat.mod_upper_bound n 32 ltac:(lia)) as Hmod.
    (* the state after the conditional reset *)
    assert (∃ buf1,
      (if decide (n `mod` 32 = 0)
       then store buf (n `div` 32) 0%Z ≫= λ b, Ok (b, S ((n + 31) `div` 32))
       else Ok (buf, (n + 31) `div` 32))
      = Ok (buf1, (S n + 31) `div` 32)
      ∧ length buf1 = length input
      ∧ (∀ j, j ≠ n `div` 32 → buf1 !! j = buf !! j)
      ∧ ∃ x, buf1 !! (n `div` 32) = Some x
          ∧ ∀ k, Z.testbit x k = packed_bit input n (n `div` 32) k)
      as (buf1 & -> & Hlen1 & Hother & x & Hx & Hxbits).
    { destruct (decide (n `mod` 32 = 0)) as [H0|H0].
      - rewrite store_lt by lia. simpl.
        exists (<[n `div` 32:=0%Z]> buf).
        split; [do 2 f_equal; lia|].
        split; [rewrite length_insert; exact Hlen|].
        split; [intros j Hj; apply list_lookup_insert_ne; lia|].
        exists 0%Z. split; [apply list_lookup_insert_eq; lia|].
        intros k. rewrite Z.bits_0, packed_bit_ge by lia. reflexivity.
      - exists buf. split; [do 2 f_equal; lia|].
        split; [exact Hlen|]. split; [intros; reflexivity|].
        apply Hbits. lia. }
    simpl.
    assert (Hshift : ∀ w k, w < (S n + 31) `div` 32 →
      bool_decide (0 ≤ k < 32)%Z && bool_decide (32 * w + Z.to_nat k = n)
      = bool_decide (w = n `div` 32)
        && (bool_decide (0 ≤ k < 32)%Z
            && bool_decide (k = Z.of_nat (n `mod` 32)))).
    { intros w k Hw.
      destruct (decide (0 ≤ k < 32)%Z) as [Hk|Hk];
        [rewrite !(bool_decide_eq_true_2 (_ ≤ _ < _)%Z) by exact Hk
        |rewrite !(bool_decide_eq_false_2 (_ ≤ _ < _)%Z) by exact Hk;
         simpl; rewrite andb_false_r; reflexivity].
      simpl. apply eq_true_iff_eq.
      rewrite andb_true_iff, !bool_decide_eq_true. lia. }
    assert (Hold : ∀ w, w < (S n + 31) `div` 32 → w ≠ n `div` 32 →
      w < (n + 31) `div` 32) by (intros; lia).
    destruct (float_ne_zero e) eqn:Hnz.
    + rewrite (load_lookup _ _ _ Hx). simpl.
      rewrite store_lt by lia. simpl.
      eexists. split; [reflexivity|].
      split; [rewrite length_insert; exact Hlen1|].
      split.
      { intros j Hj. rewrite list_lookup_insert_ne by lia.
        rewrite Hother by lia. apply Hrest. lia. }
      intros w Hw. destruct (decide (w = n `div` 32)) as [->|Hne].
      * eexists. split; [apply list_lookup_insert_eq; lia|].
        intros k. rewrite set_bit_testbit by lia.
        rewrite packed_bit_S, (is_set_lookup _ _ _ He), Hnz, andb_true_r.
        rewrite Hshift by exact Hw.
        rewrite (bool_decide_eq_true_2 (n `div` 32 = _)) by reflexivity.
        simpl. rewrite Hxbits. unfold packed_bit.
        destruct (bool_decide (0 ≤ k < 32)%Z); reflexivity.
      * rewrite list_lookup_insert_ne by lia. rewrite Hother by exact Hne.
        destruct (Hbits w (Hold w Hw Hne)) as (y & Hy & Hybits).
        exists y. split; [exact Hy|]. intros k.
        rewrite packed_bit_S, Hshift by exact Hw.
        rewrite (bool_decide_eq_false_2 (w = _)) by exact Hne.
        simpl. rewrite orb_false_r. apply Hybits.
    + exists buf1. split; [reflexivity|]. split; [exact Hlen1|].
      split.
      { intros j Hj. rewrite Hother by lia. apply Hrest. lia. }
      intros w Hw.
      assert (Hstep : ∀ k, packed_bit input (S n) w k = packed_bit input n w k).
      { intros k. rewrite packed_bit_S, (is_set_lookup _ _ _ He), Hnz.
        rewrite andb_false_r, orb_false_r. reflexivity. }
      destruct (decide (w = n `div` 32)) as [->|Hne].
      * exists x. split; [exact Hx|]. intros k. rewrite Hstep. apply Hxbits.
      * rewrite Hother by exact Hne.
        destruct (Hbits w (Hold w Hw Hne)) as (y & Hy & Hybits).
        exists y. split; [exact Hy|]. intros k. rewrite Hstep. apply Hybits.
Qed.

Lemma query_encode_build_encode StrDesc dim v :
  Query.encode StrDesc dim v = Build.encode StrDesc dim v.
Proof. reflexivity. Qed.

Lemma sparse_indices_count input n :
  n ≤ length input →
  length (sparse_indices input n)
  = length (List.filter float_ne_zero (take n input)).
Proof.
  induction n as [|n IH]; intros Hn; [reflexivity|].
  destruct (lookup_lt_is_Some_2 input n) as [x Hx]; [lia|].
  rewrite sparse_indices_S, (take_S_r _ _ _ Hx), List.filter_app, !length_app.
  rewrite IH by lia. rewrite (is_set_lookup _ _ _ Hx). simpl.
  destruct (float_ne_zero x); reflexivity.
Qed.

Lemma sparse_indices_elem input n i :
  i ∈ sparse_indices input n
  ↔ i < n ∧ ∃ x, input !! i = Some x ∧ float_ne_zero x = true.
Proof.
  unfold sparse_indices. rewrite list_elem_of_In, List.filter_In, in_seq.
  unfold is_set. destruct (input !! i) as [x|]; simpl.
  - split.
    + intros [? ?]. split; [lia|]. eauto.
    + intros (? & y & [= <-] & ?). split; [lia|assumption].
  - split.
    + intros [_ [=]].
    + intros (_ & y & [=] & _).
Qed.

Lemma filter_seq_sorted (f : nat → bool) a n :
  StronglySorted lt (List.filter f (seq a n)).
Proof.
  revert a. induction n as [|n IH]; intros a; simpl; [constructor|].
  assert (Forall (lt a) (List.filter f (seq (S a) n))) as Hall.
  { apply Forall_forall. intros x Hx.
    apply list_elem_of_In, List.filter_In in Hx as [Hx _].
    apply in_seq in Hx. lia. }
  destruct (f a); [constructor|]; auto.
Qed.

Lemma words_for_fit D : 2 ≤ D → words_for D + 1 ≤ D.
Proof. unfold words_for. lia. Qed.

(** The [bit_jaccard] branch on a vector of at least two entries. *)
Lemma bit_encode_run (input : list Z) :
  2 ≤ length input →
  ∃ buf, Build.encode "bit_jaccard" (length input) input
           = Ok (buf, words_for (length input) + 1)
    ∧ length buf = length input
    ∧ buf !! words_for (length input) = Some (u32 (Z.of_nat (length input)))
    ∧ (∀ j, words_for (length input) + 1 ≤ j → buf !! j = input !! j)
    ∧ ∀ w, w < words_for (length input) →
        ∃ x, buf !! w = Some x
          ∧ ∀ k, Z.testbit x k = packed_bit input (length input) w k.
Proof.
  intros HD. destruct (bit_loop_inv input (length input)) as
    (buf & Hrun & Hlen & Hrest & Hbits); [lia|].
  pose proof (words_for_fit _ HD) as Hfit. unfold words_for in *.
  unfold Build.encode. simpl String.eqb. cbv iota.
  rewrite decide_False by lia. rewrite Hrun. simpl.
  rewrite store_lt by lia. simpl.
  eexists. split; [do 2 f_equal; lia|].
  split; [rewrite length_insert; exact Hlen|].
  split; [apply list_lookup_insert_eq; lia|]. split.
  - intros j Hj. rewrite list_lookup_insert_ne by lia. apply Hrest. lia.
  - intros w Hw. rewrite list_lookup_insert_ne by lia. apply Hbits, Hw.
Qed.

(** The bounds are those of the buffer, not of the declared dimension: an
    encoder told a dimension larger than its buffer runs past the end. *)
Lemma encode_past_buffer_is_undefined :
  Build.encode "jaccard_sparse" 3 [float_one; float_one] = Undefined
  ∧ Build.encode "bit_jaccard" 3 [float_one; float_one] = Undefined
  ∧ Query.encode "bit_jaccard" 33 (replicate 32 float_one) = Undefined.
Proof. repeat split. Qed.

(** ** Rules for [triple] *)

Section rules.
Context {St : Type}.
Implicit Types (P E U : St → Prop).

Lemma triple_ret {A} (a : A) (Q : A → St → Prop) E U :
  triple (Q a) (mret a) Q E U.
Proof. intros s Hs. exact Hs. Qed.

Lemma triple_bind {A B} P (m : M St A) (k : A → M St B)
    (Q : A → St → Prop) (R : B → St → Prop) E U :
  triple P m Q E U → (∀ a, triple (Q a) (k a) R E U) →
  triple P (m ≫= k) R E U.
Proof.
  intros Hm Hk s Hs. specialize (Hm s Hs).
  unfold mbind, M_bind. destruct (m s) as [[a| |] s']; auto.
  apply (Hk a s' Hm).
Qed.

Lemma triple_conseq {A} P P' (m : M St A) (Q Q' : A → St → Prop) E E' U U' :
  triple P' m Q' E' U' →
  (∀ s, P s → P' s) → (∀ a s, Q' a s → Q a s) →
  (∀ s, E' s → E s) → (∀ s, U' s → U s) →
  triple P m Q E U.
Proof.
  intros Hm HP HQ HE HU s Hs. specialize (Hm s (HP s Hs)).
  destruct (m s) as [[a| |] s']; auto.
Qed.

Lemma triple_lift {A} P (o : outcome A) (Q : A → St → Prop) E U :
  (∀ s, P s → match o with
               | Ok a => Q a s
               | Throw _ => E s
               | Undefined => U s
               end) →
  triple P (lift o) Q E U.
Proof. intros H s Hs. specialize (H s Hs). destruct o; exact H. Qed.

Lemma triple_throw {A} what (Q : A → St → Prop) E U :
  triple E (throw what) Q E U.
Proof. intros s Hs. exact Hs. Qed.

Lemma triple_modify P (f : St → St) (Q : unit → St → Prop) E U :
  (∀ s, P s → Q () (f s)) → triple P (modify f) Q E U.
Proof. intros H s Hs. apply H, Hs. Qed.

Lemma triple_backend_call (ok : bool) what P E U :
  (∀ s, P s → E s) →
  triple P (backend_call ok what) (λ _, P) E U.
Proof. intros H s Hs. destruct ok; simpl; auto. Qed.

Lemma triple_try {A} P (body : M St A) handler (Q : A → St → Prop) E1 E U :
  triple P body Q E1 U →
  triple E1 handler (λ _, E) E U →
  triple P (try_catch_rethrow body handler) Q E U.
Proof.
  intros Hb Hh s Hs. specialize (Hb s Hs). unfold try_catch_rethrow.
  destruct (body s) as [[a| |] s']; auto.
  specialize (Hh s' Hb). destruct (handler s') as [[[]| |] s'']; auto.
Qed.

Lemma triple_scoped {A} P (body : M St A) cleanup
    (Q Q' : A → St → Prop) E E' U :
  triple P body Q' E' U →
  (∀ a s, Q' a s → Q a (cleanup s)) → (∀ s, E' s → E (cleanup s)) →
  triple P (scoped body cleanup) Q E U.
Proof.
  intros Hb HQ HE s Hs. specialize (Hb s Hs). unfold scoped.
  destruct (body s) as [[a| |] s']; auto.
Qed.

Lemma triple_for_range (I : nat → St → Prop) body E U n : ∀ i,
  (∀ j, i ≤ j < i + n → triple (I j) (body j) (λ _, I (S j)) E U) →
  triple (I i) (for_range body i n) (λ _, I (i + n)) E U.
Proof.
  induction n as [|n IH]; intros i Hbody.
  - rewrite Nat.add_0_r. intros s Hs. exact Hs.
  - simpl. eapply triple_bind; [apply Hbody; lia|].
    intros []. rewrite <- Nat.add_succ_comm. apply IH.
    intros j Hj. apply Hbody. lia.
Qed.
End rules.

Lemma triple_in_world {L A} (P : World * L → Prop) (m : M World A)
    (Q : A → World * L → Prop) E U :
  (∀ l, triple (λ w, P (w, l)) m (λ a w, Q a (w, l))
          (λ w, E (w, l)) (λ w, U (w, l))) →
  triple P (in_world m) Q E U.
Proof.
  intros H [w l] Hs. specialize (H l w Hs). unfold in_world.
  destruct (m w) as [[a| |] w']; exact H.
Qed.

Lemma triple_run_frame {L A} (P : World → Prop) (m : M (World * L) A) locals
    (Q : A → World → Prop) E U :
  triple (λ s, P s.1 ∧ s.2 = locals) m
    (λ a s, Q a s.1) (λ s, E s.1) (λ s, U s.1) →
  triple P (run_frame m locals) Q E U.
Proof.
  intros H w Hw. specialize (H (w, locals) (conj Hw eq_refl)).
  unfold run_frame. destruct (m (w, locals)) as [[a| |] [w' l']]; exact H.
Qed.

(** ** The encoders never leave a buffer of [dim] cells *)

Lemma encode_defined spaceTypeCpp (input : list Z) :
  match Build.encode spaceTypeCpp (length input) input with
  | Ok (buf, numElems) => length buf = length input ∧ numElems ≤ length input
  | Throw _ => True
  | Undefined => False
  end.
Proof.
  unfold Build.encode.
  destruct (String.eqb spaceTypeCpp "jaccard_sparse").
  - destruct (sparse_loop_inv input (length input)) as
      (buf & -> & Hlen & _ & _); [lia|].
    split; [exact Hlen|apply sparse_indices_length_le].
  - destruct (String.eqb spaceTypeCpp "bit_jaccard"); [|split; reflexivity].
    destruct (decide (length input < 2)) as [Hlt|Hge]; [exact I|].
    destruct (bit_encode_run input) as (buf & Hrun & Hlen & _); [lia|].
    unfold Build.encode in Hrun. simpl String.eqb in Hrun. cbv iota in Hrun.
    rewrite decide_False in Hrun by exact Hge. rewrite Hrun.
    split; [exact Hlen|]. apply words_for_fit. lia.
Qed.

(** ** [CreateIndex] gives back every dataset entry *)















(** ** The Java arrays when element buffers are copies *)

Lemma triple_keeps {A} (m : M World A) (arrays : list (list Z)) :
  keeps_arrays m →
  triple (λ w, jfloats w = arrays) m (λ _ w, jfloats w = arrays)
    (λ w, jfloats w = arrays) (λ w, jfloats w = arrays).
Proof.
  intros Hm w Hw. specialize (Hm w).
  destruct (m w) as [[a| |] w']; simpl in Hm; congruence.
Qed.

Lemma triple_keeps_in_world {L A} (m : M World A) (arrays : list (list Z)) :
  keeps_arrays m →
  triple (λ s : World * L, jfloats s.1 = arrays) (in_world m)
    (λ _ s, jfloats s.1 = arrays)
    (λ s, jfloats s.1 = arrays) (λ s, jfloats s.1 = arrays).
Proof. intros Hm. apply triple_in_world. intros l. apply triple_keeps, Hm. Qed.

Ltac keeps_leaf prim :=
  let w := fresh "w" in
  intros w; unfold prim; repeat case_match; reflexivity.

Lemma keeps_GetObjectArrayElement vectorsJ i :
  keeps_arrays (GetObjectArrayElement vectorsJ i).
Proof. keeps_leaf GetObjectArrayElement. Qed.

Lemma keeps_GetJavaFloatArrayLength arrayJ :
  keeps_arrays (GetJavaFloatArrayLength arrayJ).
Proof. keeps_leaf GetJavaFloatArrayLength. Qed.

Lemma keeps_GetInnerDimension vectorsJ :
  keeps_arrays (GetInnerDimensionOf2dJavaFloatArray vectorsJ).
Proof.
  destruct vectorsJ; [intros w; reflexivity|].
  apply keeps_GetJavaFloatArrayLength.
Qed.

Lemma keeps_GetFloatArrayElements arrayJ :
  keeps_arrays (GetFloatArrayElements arrayJ).
Proof. keeps_leaf GetFloatArrayElements. Qed.

Lemma keeps_ReleaseFloatArrayElements arrayJ :
  keeps_arrays (ReleaseFloatArrayElements arrayJ).
Proof. keeps_leaf ReleaseFloatArrayElements. Qed.

Lemma keeps_GetIntArrayElements env idsJ :
  keeps_arrays (GetIntArrayElements env idsJ).
Proof. keeps_leaf GetIntArrayElements. Qed.

Lemma keeps_ReleaseIntArrayElements : keeps_arrays ReleaseIntArrayElements.
Proof. keeps_leaf ReleaseIntArrayElements. Qed.

Lemma keeps_alloc o : keeps_arrays (alloc o).
Proof. keeps_leaf alloc. Qed.

Lemma keeps_new_Object env id label numElems data :
  keeps_arrays (new_Object env id label numElems data).
Proof. keeps_leaf new_Object. Qed.

Lemma keeps_CreateSpace env spaceType : keeps_arrays (CreateSpace env spaceType).
Proof. keeps_leaf CreateSpace. Qed.

Lemma keeps_CreateMethod env space : keeps_arrays (CreateMethod env space).
Proof. keeps_leaf CreateMethod. Qed.

Lemma keeps_modify_heap f : keeps_arrays (modify (with_heap f)).
Proof. intros w. reflexivity. Qed.

Lemma keeps_free_all ptrs : keeps_arrays (modify (free_all ptrs)).
Proof. intros w. reflexivity. Qed.

(** The stores of the encoders reach the array only through a buffer
    that is the array's own storage. *)
Lemma keeps_stored_in_place env arrayJ elems :
  isCopy env = true → keeps_arrays (stored_in_place env arrayJ elems).
Proof. intros Hcopy w. unfold stored_in_place. rewrite Hcopy. reflexivity. Qed.

Lemma keeps_deref_IndexWrapper p : keeps_arrays (deref_IndexWrapper p).
Proof. keeps_leaf deref_IndexWrapper. Qed.

Lemma keeps_StrDesc space : keeps_arrays (StrDesc space).
Proof. keeps_leaf StrDesc. Qed.

Lemma keeps_object_at p : keeps_arrays (object_at p).
Proof. keeps_leaf object_at. Qed.

Create HintDb keeps.

#[local] Hint Resolve keeps_GetObjectArrayElement keeps_GetJavaFloatArrayLength
  keeps_GetInnerDimension keeps_GetFloatArrayElements
  keeps_ReleaseFloatArrayElements keeps_GetIntArrayElements
  keeps_ReleaseIntArrayElements keeps_alloc keeps_new_Object keeps_CreateSpace
  keeps_CreateMethod keeps_modify_heap keeps_free_all keeps_stored_in_place
  keeps_deref_IndexWrapper keeps_StrDesc keeps_object_at : keeps.

(** Take a computation apart along its control structure; every leaf is
    a call that keeps the arrays. *)
Ltac keeps_step :=
  lazymatch goal with
  | |- triple _ (mbind _ _) _ ?E _ =>
      eapply triple_bind with (Q := λ _, E);
      [|let x := fresh "x" in
        intros x;
        try (lazymatch type of x with prod _ _ => destruct x as [? ?] end);
        cbv beta]
  | |- triple _ (if ?c then _ else _) _ _ _ => destruct c
  | |- triple _ (match ?x with _ => _ end) _ _ _ => destruct x
  | |- triple _ (try_catch_rethrow _ _) _ ?E _ =>
      eapply triple_try with (E1 := E)
  | |- triple _ (scoped _ _) _ ?E _ =>
      eapply triple_scoped with (Q' := λ _, E) (E' := E);
      [|intros ? [? ?] ?; assumption|intros [? ?] ?; assumption]
  | |- triple _ (in_world _) _ _ _ =>
      apply triple_keeps_in_world; auto with keeps
  | |- triple _ (for_range _ _ _) _ ?E _ =>
      apply (triple_for_range (λ _, E)); intros ? _
  | |- triple (λ w, jfloats w = ?arrays) (run_frame _ _) _ _ _ =>
      apply triple_run_frame;
      eapply triple_conseq with
        (P' := λ s, jfloats s.1 = arrays) (Q' := λ _ s, jfloats s.1 = arrays)
        (E' := λ s, jfloats s.1 = arrays) (U' := λ s, jfloats s.1 = arrays);
      [|intros ? [? _]; assumption|auto..]
  | |- triple _ (backend_call _ _) _ _ _ =>
      apply triple_backend_call; auto
  | |- triple _ (throw _) _ _ _ => apply triple_throw
  | |- triple _ (lift _) _ _ _ =>
      apply triple_lift; intros ? ?; repeat case_match; assumption
  | |- triple _ (mret _) _ _ _ => intros ? ?; assumption
  | |- triple _ get_locals _ _ _ => intros ? ?; assumption
  | |- triple _ (set_locals _) _ _ _ => intros ? ?; assumption
  end.

Lemma read_vector_keeps_arrays env sp vectorsJ dim i arrays :
  isCopy env = true →
  triple (λ s, jfloats s.1 = arrays) (read_vector env sp vectorsJ dim i)
    (λ _ s, jfloats s.1 = arrays)
    (λ s, jfloats s.1 = arrays) (λ s, jfloats s.1 = arrays).
Proof.
  intros Hcopy. unfold read_vector, read_idsCpp. repeat keeps_step.
Qed.

Lemma CreateIndex_keeps_arrays env idsJ vectorsJ sp arrays :
  isCopy env = true →
  triple (λ w, jfloats w = arrays) (CreateIndex env idsJ vectorsJ sp)
    (λ _ w, jfloats w = arrays)
    (λ w, jfloats w = arrays) (λ w, jfloats w = arrays).
Proof.
  intros Hcopy. unfold CreateIndex.
  eapply triple_bind; [apply triple_keeps; auto with keeps|]. intros space.
  eapply triple_scoped with (Q' := λ _ w, jfloats w = arrays)
                            (E' := λ w, jfloats w = arrays); [|auto..].
  cbv zeta. destruct (decide (length idsJ ≠ length vectorsJ));
    [apply triple_throw|].
  eapply triple_bind; [apply triple_keeps; auto with keeps|]. intros dim.
  unfold CreateIndex_try, CreateIndex_cleanup, read_idsCpp.
  repeat first [apply read_vector_keeps_arrays; assumption | keeps_step].
Qed.

Lemma QueryIndex_keeps_arrays env indexPointerJ queryVectorJ kJ arrays :
  isCopy env = true →
  triple (λ w, jfloats w = arrays)
    (QueryIndex env indexPointerJ queryVectorJ kJ)
    (λ _ w, jfloats w = arrays)
    (λ w, jfloats w = arrays) (λ w, jfloats w = arrays).
Proof.
  intros Hcopy. unfold QueryIndex, Search.
  destruct (decide (indexPointerJ = 0)); [apply triple_throw|].
  repeat lazymatch goal with
  | |- triple _ (mbind _ _) _ ?E _ =>
      eapply triple_bind with (Q := λ _, E);
      [|let x := fresh "x" in
        intros x;
        try (lazymatch type of x with prod _ _ => destruct x as [? ?] end);
        cbv beta]
  | |- triple _ (try_catch_rethrow _ _) _ ?E _ =>
      eapply triple_try with (E1 := E)
  | |- triple _ (scoped _ _) _ ?E _ =>
      eapply triple_scoped with (Q' := λ _, E) (E' := E); [|auto..]
  | |- triple _ (backend_call _ _) _ _ _ => apply triple_backend_call; auto
  | |- triple _ (lift _) _ _ _ =>
      apply triple_lift; intros ? ?; repeat case_match; assumption
  | |- triple _ (mret _) _ _ _ => intros ? ?; assumption
  | |- triple _ _ _ _ _ => apply triple_keeps; auto with keeps
  end.
Qed.

(** ** The result queue and its draining *)

Lemma insert_farthest_first_length d id items :
  length (insert_farthest_first d id items) = S (length items).
Proof.
  induction items as [|[d' id'] rest IH]; simpl; [reflexivity|].
  destruct (float_lt d' d); simpl; [reflexivity|]. rewrite IH. reflexivity.
Qed.

Lemma insert_farthest_first_Forall (P : Z * Z → Prop) d id items :
  P (d, id) → Forall P items → Forall P (insert_farthest_first d id items).
Proof.
  intros Hnew. induction 1 as [|[d' id'] rest Hx Hrest IH]; simpl.
  - constructor; [exact Hnew|constructor].
  - destruct (float_lt d' d); repeat constructor; assumption.
Qed.

Lemma insert_farthest_first_sorted d id items :
  items_farthest_first items →
  items_farthest_first (insert_farthest_first d id items).
Proof.
  unfold items_farthest_first.
  induction 1 as [|[d' id'] rest Hsorted IH Hall]; simpl.
  - repeat constructor.
  - unfold float_lt. destruct (Z.ltb_spec (float_key d') (float_key d)).
    + constructor; [constructor; assumption|].
      constructor; [simpl; lia|].
      eapply Forall_impl; [exact Hall|]. simpl. intros x Hx. lia.
    + constructor; [exact IH|].
      apply insert_farthest_first_Forall; [simpl; lia|exact Hall].
Qed.

Lemma Push_sorted d id q :
  items_farthest_first (queue_items q) →
  items_farthest_first (queue_items (Push d id q)).
Proof.
  intros Hsorted. unfold Push.
  destruct (decide (Size q < queue_K q)); simpl;
    [apply insert_farthest_first_sorted, Hsorted|].
  destruct (queue_items q) as [|[top ?] rest] eqn:Hitems;
    [rewrite Hitems; exact Hsorted|].
  destruct (float_lt d top); simpl; [|rewrite Hitems; exact Hsorted].
  apply insert_farthest_first_sorted.
  apply StronglySorted_inv in Hsorted as [Hrest _]. exact Hrest.
Qed.

Lemma Push_K d id q : queue_K (Push d id q) = queue_K q.
Proof.
  unfold Push. destruct (decide (Size q < queue_K q)); [reflexivity|].
  destruct (queue_items q) as [|[top ?] rest]; [reflexivity|].
  destruct (float_lt d top); reflexivity.
Qed.

Lemma Push_Size d id q :
  Size q ≤ queue_K q → Size (Push d id q) = min (queue_K q) (S (Size q)).
Proof.
  intros Hle. unfold Push, Size in *.
  destruct (decide (length (queue_items q) < queue_K q)); simpl.
  - rewrite insert_farthest_first_length. lia.
  - destruct (queue_items q) as [|[top ?] rest] eqn:Hitems;
      [rewrite Hitems; simpl in *; lia|].
    destruct (float_lt d top); simpl.
    + rewrite insert_farthest_first_length. simpl in *. lia.
    + rewrite Hitems. simpl in *. lia.
Qed.

(** The queue after the backend has offered [hits]: the [k] closest, or
    all of them when there are fewer, farthest first. *)
Lemma offer_all_spec k hits :
  queue_K (offer_all k hits) = k
  ∧ Size (offer_all k hits) = min k (length hits)
  ∧ items_farthest_first (queue_items (offer_all k hits)).
Proof.
  unfold offer_all.
  induction hits as [|hit hits IH] using rev_ind.
  - split; [reflexivity|]. split; [unfold Size; simpl; lia|constructor].
  - rewrite foldl_app. simpl. destruct IH as (HK & HSize & Hsorted).
    split; [rewrite Push_K; exact HK|].
    split; [|apply Push_sorted, Hsorted].
    rewrite Push_Size by lia. rewrite HK, HSize, length_app. simpl. lia.
Qed.

Lemma result_of_sorted items :
  items_farthest_first items → farthest_first (result_of <$> items).
Proof.
  unfold items_farthest_first, farthest_first.
  induction 1 as [|item rest Hsorted IH Hall]; simpl; constructor; [exact IH|].
  apply Forall_fmap. eapply Forall_impl; [exact Hall|]. auto.
Qed.

Lemma drain_body_step K d id rest i results :
  i < length results →
  drain_body i ({| queue_K := K; queue_items := (d, id) :: rest |}, results)
  = Ok ({| queue_K := K; queue_items := rest |}, <[i:=Some (id, d)]> results).
Proof.
  intros Hi. unfold drain_body, TopDistance, Pop. simpl.
  rewrite decide_True by exact Hi. reflexivity.
Qed.

(** Lines 280-285: the loop moves the queue into the array, top first. *)
Lemma drain_spec K items : ∀ pre,
  for_loop drain_body (length pre) (length items)
    ({| queue_K := K; queue_items := items |},
     pre ++ replicate (length items) None)
  = Ok ({| queue_K := K; queue_items := [] |},
        pre ++ (Some <$> (result_of <$> items))).
Proof.
  induction items as [|[d id] rest IH]; intros pre; [reflexivity|].
  cbn [length for_loop]. rewrite replicate_S.
  rewrite drain_body_step by (rewrite length_app; simpl; lia).
  cbn [mbind outcome_bind].
  rewrite insert_app_r_alt, Nat.sub_diag by lia. cbn [insert list_insert].
  specialize (IH (pre ++ [Some (id, d)])).
  rewrite length_app, Nat.add_1_r, <- !app_assoc in IH. exact IH.
Qed.

Lemma triple_any {St A} (P : St → Prop) (m : M St A) :
  triple P m (λ _ _, True) (λ _, True) (λ _, True).
Proof. intros s _. destruct (m s) as [[?| |] ?]; exact I. Qed.

(** What [QueryIndex] returns is the queue that [Search] filled, read
    from its top down. *)
Lemma QueryIndex_drains env indexPointerJ queryVectorJ kJ :
  triple (λ _, True) (QueryIndex env indexPointerJ queryVectorJ kJ)
    (λ results _, ∃ object,
       results = Some <$> (result_of <$>
                   queue_items (offer_all kJ (search_hits env object))))
    (λ _, True) (λ _, True).
Proof.
  unfold QueryIndex.
  destruct (decide (indexPointerJ = 0)); [intros s _; exact I|].
  do 6 (eapply triple_bind with (Q := λ _ _, True); [apply triple_any|];
        let x := fresh "x" in
        intros x;
        try (lazymatch type of x with prod _ _ => destruct x as [? ?] end)).
  eapply triple_bind with (Q := λ _ _, True); [apply triple_any|].
  intros queryObject.
  eapply triple_scoped with (E' := λ _, True); [|intros ? ? H; exact H|auto].
  eapply triple_bind with (Q := λ _ _, True); [apply triple_any|]. intros [].
  eapply triple_bind with (Q := λ _ _, True); [apply triple_any|].
  intros object. unfold Search.
  eapply triple_bind with
    (Q := λ neighbors _, neighbors = offer_all kJ (search_hits env object)).
  { eapply triple_bind with (Q := λ _ _, True); [apply triple_any|].
    intros [] s _. reflexivity. }
  intros neighbors s ->. cbv zeta. unfold Size.
  destruct (offer_all kJ (search_hits env object)) as [K items] eqn:Hq.
  cbn [queue_items].
  pose proof (drain_spec K items []) as Hdrain. cbn [length app] in Hdrain.
  unfold mbind at 1. unfold M_bind, lift. rewrite Hdrain. simpl.
  exists object. rewrite Hq. reflexivity.
Qed.

(** ** What holds of [LoadIndex] and of the checks of [CreateIndex] *)

(** Once the handle is constructed, a failure to load the index or to
    set the query-time parameters deletes it, index and space included. *)
Lemma LoadIndex_releases_constructed_handle env spaceTypeCpp w :
  wf w →
  create_space_ok env = true → create_method_ok env = true →
  load_index_ok env = false ∨ set_query_time_params_ok env = false →
  (∃ what, (LoadIndex env spaceTypeCpp w).1 = Throw what)
  ∧ heap (LoadIndex env spaceTypeCpp w).2 = heap w.
Proof.
  intros Hwf Hspace Hmethod Hfail.
  assert (heap (free (S (S (next w))) (free (next w) (free (S (next w))
    (with_heap (λ h, <[S (S (next w)):=NWrapper (S (next w)) (next w)]>
                       (<[S (next w):=NIndex (next w)]>
                          (<[next w:=NSpace spaceTypeCpp]> h))) w))))
          = heap w) as Hheap.
  { simpl. apply map_eq. intros p.
    destruct (decide (p = S (S (next w)))) as [->|H2];
      [rewrite lookup_delete_eq; symmetry; apply Hwf; lia|].
    rewrite lookup_delete_ne by congruence.
    destruct (decide (p = next w)) as [->|H0];
      [rewrite lookup_delete_eq; symmetry; apply Hwf; lia|].
    rewrite lookup_delete_ne by congruence.
    destruct (decide (p = S (next w))) as [->|H1];
      [rewrite lookup_delete_eq; symmetry; apply Hwf; lia|].
    rewrite lookup_delete_ne by congruence.
    rewrite !lookup_insert_ne by congruence. reflexivity. }
  unfold LoadIndex, run_frame, try_catch_rethrow, new_IndexWrapper, CreateSpace,
    CreateMethod, LoadIndex_cleanup, delete_IndexWrapper, backend_call,
    in_world, set_locals, get_locals, modify, alloc, throw, lift.
  unfold mbind, M_bind. rewrite Hspace, Hmethod.
  destruct Hfail as [Hload|Hparams].
  - rewrite Hload. simpl. rewrite lookup_insert_eq. simpl.
    split; [eexists; reflexivity|exact Hheap].
  - rewrite Hparams. destruct (load_index_ok env); simpl;
      rewrite lookup_insert_eq; simpl;
      (split; [eexists; reflexivity|exact Hheap]).
Qed.

(** When the constructor of the handle throws, nothing stays allocated,
    and the [catch] block is entered with [indexWrapper] unassigned. *)
Lemma LoadIndex_constructor_failure env spaceTypeCpp w :
  wf w →
  create_space_ok env = false ∨ create_method_ok env = false →
  (LoadIndex env spaceTypeCpp w).1 = Undefined
  ∧ heap (LoadIndex env spaceTypeCpp w).2 = heap w.
Proof.
  intros Hwf Hfail.
  unfold LoadIndex, run_frame, try_catch_rethrow, new_IndexWrapper, CreateSpace,
    CreateMethod, LoadIndex_cleanup, in_world, get_locals, modify, alloc,
    throw, lift.
  unfold mbind, M_bind.
  destruct (create_space_ok env); simpl.
  - destruct Hfail as [Hs|Hm]; [discriminate Hs|]. rewrite Hm. simpl.
    split; [reflexivity|]. apply delete_insert_id, Hwf. lia.
  - split; reflexivity.
Qed.

(** Lines 90-94: a count mismatch is reported before anything but the
    space object exists, and that one is given back. *)
Lemma CreateIndex_count_mismatch env idsJ vectorsJ spaceTypeCpp w :
  wf w → create_space_ok env = true →
  length idsJ ≠ length vectorsJ →
  (CreateIndex env idsJ vectorsJ spaceTypeCpp w).1
  = Throw "Number of IDs does not match number of vectors"
  ∧ made (CreateIndex env idsJ vectorsJ spaceTypeCpp w).2 = made w
  ∧ heap (CreateIndex env idsJ vectorsJ spaceTypeCpp w).2 = heap w
  ∧ float_elems (CreateIndex env idsJ vectorsJ spaceTypeCpp w).2 = float_elems w
  ∧ int_elems (CreateIndex env idsJ vectorsJ spaceTypeCpp w).2 = int_elems w.
Proof.
  intros Hwf Hspace Hne.
  unfold CreateIndex, CreateSpace, scoped, alloc, throw, lift.
  unfold mbind, M_bind. rewrite Hspace. simpl.
  rewrite decide_True by exact Hne. simpl.
  repeat split. apply delete_insert_id, Hwf. lia.
Qed.

(** Lines 124-127: with the ids in hand, equal counts and a first vector of
    dimension 0 or 1, [bit_jaccard] is rejected before any dataset entry is
    constructed; the element buffer of that vector is outstanding
    afterwards. *)
Lemma CreateIndex_bit_jaccard_small_dim env idsJ first vectorsJ w a :
  create_space_ok env = true → int_elements_ok env = true →
  length idsJ = S (length vectorsJ) →
  jfloats w !! first = Some a → length a < 2 →
  (CreateIndex env idsJ (first :: vectorsJ) "bit_jaccard" w).1
  = Throw "Dimension of vectors for bit_jaccard must be > 1!"
  ∧ made (CreateIndex env idsJ (first :: vectorsJ) "bit_jaccard" w).2 = made w
  ∧ float_elems (CreateIndex env idsJ (first :: vectorsJ) "bit_jaccard" w).2
    = first :: float_elems w.
Proof.
  intros Hspace Hids Hlen Ha Hdim.
  unfold CreateIndex, CreateSpace, scoped, run_frame, try_catch_rethrow,
    CreateIndex_try, CreateIndex_cleanup, read_idsCpp, in_world, get_locals,
    set_locals, modify, GetInnerDimensionOf2dJavaFloatArray,
    GetJavaFloatArrayLength, GetIntArrayElements, ReleaseIntArrayElements,
    alloc, throw, lift.
  unfold mbind, M_bind. rewrite Hspace, Hids. simpl.
  rewrite decide_False by (simpl; lia). simpl. rewrite Ha. simpl.
  unfold read_vector, in_world, GetObjectArrayElement, GetJavaFloatArrayLength,
    GetFloatArrayElements, lift, throw.
  unfold mbind, M_bind, mret, M_ret. simpl. rewrite Ha. simpl.
  rewrite decide_False by auto. simpl. rewrite Ha. simpl.
  unfold Build.encode. simpl String.eqb. cbv iota.
  rewrite decide_True by exact Hdim. simpl. repeat split.
Qed.

(** Lines 236-239: on a [bit_jaccard] handle a query vector of dimension
    0 or 1 is rejected with its element buffer outstanding. *)
Lemma QueryIndex_bit_jaccard_small_dim env indexPointerJ queryVectorJ kJ w
    index space a :
  indexPointerJ ≠ 0 →
  heap w !! indexPointerJ = Some (NWrapper index space) →
  heap w !! space = Some (NSpace "bit_jaccard") →
  jfloats w !! queryVectorJ = Some a → length a < 2 →
  (QueryIndex env indexPointerJ queryVectorJ kJ w).1
  = Throw "Dimension of vectors for bit_jaccard must be > 1!"
  ∧ float_elems (QueryIndex env indexPointerJ queryVectorJ kJ w).2
    = queryVectorJ :: float_elems w.
Proof.
  intros Hp Hwrapper Hspace Ha Hdim.
  unfold QueryIndex. rewrite decide_False by exact Hp.
  unfold GetJavaFloatArrayLength, GetFloatArrayElements, deref_IndexWrapper,
    StrDesc, lift.
  unfold mbind, M_bind. rewrite Ha. cbn [heap with_float_elems].
  rewrite Ha. cbn [heap with_float_elems]. rewrite Hwrapper.
  cbn [heap with_float_elems]. rewrite Hspace.
  unfold Query.encode. simpl String.eqb. cbv iota.
  rewrite decide_True by exact Hdim. split; reflexivity.
Qed.

(** Lines 258-263, the sibling path: when the query object cannot be
    constructed the element buffer is released before the exception
    leaves. *)
Lemma QueryIndex_object_failure_releases_buffer :
  (QueryIndex (backend true true true false) 3 0 2
     (loaded "l2" [float_one; 0%Z])).1 = Throw "std::bad_alloc"
  ∧ float_elems (QueryIndex (backend true true true false) 3 0 2
                   (loaded "l2" [float_one; 0%Z])).2 = [].
Proof. split; reflexivity. Qed.

(** Lines 148 and 163: when the index cannot be saved, the ids have been
    released once in the [try] block and the handler releases them again. *)
Lemma CreateIndex_releases_ids_twice :
  (CreateIndex
     {| isCopy := true; object_alloc_ok := λ _, true;
        int_elements_ok := true; create_space_ok := true;
        create_method_ok := true; create_index_ok := true;
        save_index_ok := false; load_index_ok := true;
        set_query_time_params_ok := true; search_ok := true;
        search_hits := λ _, [] |}
     [7]%Z [0] "l2" (fresh_world [[float_one]])).1 = Throw "SaveIndex failed"
  ∧ stray_releases
      (CreateIndex
         {| isCopy := true; object_alloc_ok := λ _, true;
            int_elements_ok := true;
            create_space_ok := true; create_method_ok := true;
            create_index_ok := true; save_index_ok := false;
            load_index_ok := true; set_query_time_params_ok := true;
            search_ok := true; search_hits := λ _, [] |}
         [7]%Z [0] "l2" (fresh_world [[float_one]])).2 = 1.
Proof. split; reflexivity. Qed.

(** [Free] gives back what [LoadIndex] built. *)
Lemma LoadIndex_then_Free :
  (LoadIndex (backend true true true true) "l2" (fresh_world [])).1 = Ok 3
  ∧ heap (Free 3 (LoadIndex (backend true true true true) "l2"
                    (fresh_world [])).2).2 = ∅.
Proof. split; reflexivity. Qed.

(** ** One vector, at build time and at query time *)

Lemma encode_throws spaceTypeCpp (input : list Z) what :
  Build.encode spaceTypeCpp (length input) input = Throw what →
  what = "Dimension of vectors for bit_jaccard must be > 1!"
  ∧ spaceTypeCpp = "bit_jaccard" ∧ length input < 2.
Proof.
  unfold Build.encode.
  destruct (String.eqb spaceTypeCpp "jaccard_sparse").
  { destruct (sparse_loop_inv input (length input)) as (buf & -> & _); [lia|].
    discriminate. }
  destruct (String.eqb spaceTypeCpp "bit_jaccard") eqn:Hbit; [|discriminate].
  apply String.eqb_eq in Hbit. subst spaceTypeCpp.
  destruct (decide (length input < 2)) as [Hlt|Hge].
  - intros [= <-]. auto.
  - destruct (bit_encode_run input) as (buf & Hrun & _); [lia|].
    unfold Build.encode in Hrun. simpl String.eqb in Hrun. cbv iota in Hrun.
    rewrite decide_False in Hrun by exact Hge. rewrite Hrun. discriminate.
Qed.

Lemma wf_fresh_world arrays : wf (fresh_world arrays).
Proof. intros p _. apply lookup_empty. Qed.

(** What [LoadIndex] has done when it returns. *)
Lemma LoadIndex_returns env spaceTypeCpp w p w1 :
  LoadIndex env spaceTypeCpp w = (Ok p, w1) →
  p = S (S (next w))
  ∧ heap w1 = <[S (S (next w)):=NWrapper (S (next w)) (next w)]>
                (<[S (next w):=NIndex (next w)]>
                   (<[next w:=NSpace spaceTypeCpp]> (heap w)))
  ∧ next w1 = S (S (S (next w)))
  ∧ jfloats w1 = jfloats w ∧ float_elems w1 = float_elems w
  ∧ int_elems w1 = int_elems w ∧ stray_releases w1 = stray_releases w
  ∧ made w1 = made w.
Proof.
  unfold LoadIndex, run_frame, try_catch_rethrow, new_IndexWrapper, CreateSpace,
    CreateMethod, LoadIndex_cleanup, delete_IndexWrapper, backend_call,
    in_world, set_locals, get_locals, modify, alloc, throw, lift.
  unfold mbind, M_bind.
  destruct (create_space_ok env); simpl; [|discriminate].
  destruct (create_method_ok env); simpl; [|discriminate].
  destruct (load_index_ok env); simpl.
  - destruct (set_query_time_params_ok env); simpl.
    + intros [= <- <-]. simpl. repeat split.
    + rewrite lookup_insert_eq. simpl. discriminate.
  - rewrite lookup_insert_eq. simpl. discriminate.
Qed.

Lemma LoadIndex_returns_wf env spaceTypeCpp w p w1 :
  wf w → LoadIndex env spaceTypeCpp w = (Ok p, w1) → wf w1.
Proof.
  intros Hwf Hrun.
  apply LoadIndex_returns in Hrun as (_ & Hheap & Hnext & _).
  intros q Hq. rewrite Hheap. rewrite Hnext in Hq.
  rewrite !lookup_insert_ne by lia. apply Hwf. lia.
Qed.

(** Lines 107-146 on a vector that can be encoded: the entry that is
    constructed holds the id of the vector and the first [numElems] cells
    of the encoded buffer, and the buffer is the array itself when it is not
    a copy. *)
Lemma read_vector_builds env sp vectorsJ i floatArrayJ a ids id w l
    buf numElems :
  vectorsJ !! i = Some floatArrayJ → jfloats w !! floatArrayJ = Some a →
  idsCpp l = Some ids → ids !! i = Some id →
  Build.encode sp (length a) a = Ok (buf, numElems) →
  object_alloc_ok env (made w) = true →
  ∃ w', read_vector env sp vectorsJ (length a) i (w, l)
        = (Ok (), (w', push_back (next w) l))
    ∧ heap w' = <[next w:=NObject {| obj_id := id; obj_label := -1;
                                     obj_data := take numElems buf |}]> (heap w)
    ∧ jfloats w' = if isCopy env then jfloats w
                   else <[floatArrayJ:=buf]> (jfloats w).
Proof.
  intros Hv Ha Hids Hid Henc Halloc.
  pose proof (encode_defined sp a) as Hdef. rewrite Henc in Hdef.
  destruct Hdef as [Hlen HnumElems].
  unfold read_vector, in_world, GetObjectArrayElement, GetJavaFloatArrayLength,
    GetFloatArrayElements, stored_in_place, read_idsCpp, get_locals, set_locals,
    modify, ReleaseFloatArrayElements, new_Object, alloc, lift, throw.
  unfold mbind, M_bind, mret, M_ret. simpl.
  rewrite Hv. simpl. rewrite Ha. simpl.
  rewrite decide_False by (intros Hne; apply Hne; reflexivity). simpl.
  rewrite Ha. simpl. rewrite Henc. simpl. rewrite Hids. simpl.
  unfold load. rewrite Hid. simpl.
  destruct (isCopy env); simpl; rewrite Halloc; simpl;
    rewrite decide_True by lia; simpl;
    rewrite decide_True by (apply elem_of_cons; left; reflexivity); simpl;
    (eexists; split; [reflexivity|split; reflexivity]).
Qed.

(** Lines 217-287 on a live handle and a query vector that can be
    encoded under the description of the handle's space: the object handed
    to [Search] holds the first [numElems] cells of the encoded buffer, and
    the buffer is the array itself when it is not a copy. *)
Lemma QueryIndex_searches_encoding env indexPointerJ queryVectorJ kJ w
    index space desc a buf numElems :
  indexPointerJ ≠ 0 →
  heap w !! indexPointerJ = Some (NWrapper index space) →
  heap w !! space = Some (NSpace desc) →
  jfloats w !! queryVectorJ = Some a →
  Query.encode desc (length a) a = Ok (buf, numElems) →
  object_alloc_ok env (made w) = true →
  search_ok env = true →
  ∃ w', QueryIndex env indexPointerJ queryVectorJ kJ w
        = (Ok (Some <$> (result_of <$>
                 queue_items
                   (offer_all kJ
                      (search_hits env
                         {| obj_id := -1; obj_label := -1;
                            obj_data := take numElems buf |})))), w')
    ∧ jfloats w' = if isCopy env then jfloats w
                   else <[queryVectorJ:=buf]> (jfloats w).
Proof.
  intros Hp Hwrapper Hspace Ha Henc Halloc Hsearch.
  pose proof (encode_defined desc a) as Hdef.
  change (Build.encode desc (length a) a)
    with (Query.encode desc (length a) a) in Hdef.
  rewrite Henc in Hdef. destruct Hdef as [Hlen HnumElems].
  unfold QueryIndex. rewrite decide_False by exact Hp.
  unfold GetJavaFloatArrayLength, GetFloatArrayElements, deref_IndexWrapper,
    StrDesc, lift.
  unfold mbind at 1. unfold M_bind at 1. rewrite Ha.
  unfold mbind at 1. unfold M_bind at 1. rewrite Ha.
  unfold mbind at 1. unfold M_bind at 1. cbn [heap with_float_elems].
  rewrite Hwrapper.
  unfold mbind at 1. unfold M_bind at 1. cbn [heap with_float_elems].
  rewrite Hspace.
  unfold mbind at 1. unfold M_bind at 1. rewrite Henc.
  unfold mbind at 1. unfold M_bind at 1. unfold stored_in_place, modify.
  set (w2 := if isCopy env then with_float_elems (cons queryVectorJ) w
             else with_jfloats (λ arrays, <[queryVectorJ:=buf]> arrays)
                    (with_float_elems (cons queryVectorJ) w)).
  assert (made w2 = made w
          ∧ float_elems w2 = queryVectorJ :: float_elems w
          ∧ jfloats w2 = if isCopy env then jfloats w
                         else <[queryVectorJ:=buf]> (jfloats w))
    as (Hmade & Hfl & Hj).
  { subst w2. destruct (isCopy env); repeat split. }
  clearbody w2.
  unfold mbind at 1. unfold M_bind at 1.
  unfold try_catch_rethrow, new_Object, ReleaseFloatArrayElements.
  rewrite Hmade, Halloc.
  rewrite decide_True by lia. unfold alloc. cbn [heap next made jfloats
    float_elems int_elems stray_releases].
  unfold scoped, object_at, Search, backend_call.
  unfold mbind at 1. unfold M_bind at 1.
  cbn [heap next made jfloats float_elems int_elems stray_releases].
  rewrite Hfl. rewrite decide_True by (apply elem_of_cons; auto).
  unfold mbind at 1. unfold M_bind at 1.
  cbn [heap with_float_elems]. rewrite lookup_insert_eq.
  rewrite Hsearch.
  unfold mbind at 1. unfold M_bind at 1. unfold mbind at 1. unfold M_bind at 1.
  unfold mret at 1. unfold M_ret at 1. unfold mret at 1. unfold M_ret at 1.
  unfold mbind at 1. unfold M_bind at 1. unfold lift.
  destruct (offer_all kJ _) as [K items]. unfold Size. cbn [queue_items].
  pose proof (drain_spec K items []) as Hdrain. cbn [length app] in Hdrain.
  rewrite Hdrain. eexists. split; [reflexivity|]. exact Hj.
Qed.

(** Lines 124-127: an exception of the encoder leaves the loop body. *)
Lemma read_vector_rejects env sp vectorsJ i floatArrayJ a w l what :
  vectorsJ !! i = Some floatArrayJ → jfloats w !! floatArrayJ = Some a →
  Build.encode sp (length a) a = Throw what →
  (read_vector env sp vectorsJ (length a) i (w, l)).1 = Throw what.
Proof.
  intros Hv Ha Henc.
  unfold read_vector, in_world, GetObjectArrayElement, GetJavaFloatArrayLength,
    GetFloatArrayElements, lift, throw.
  unfold mbind, M_bind, mret, M_ret. simpl.
  rewrite Hv. simpl. rewrite Ha. simpl.
  rewrite decide_False by (intros Hne; apply Hne; reflexivity). simpl.
  rewrite Ha. simpl. rewrite Henc. reflexivity.
Qed.

(** * The claims *)

(** C1 (as the code has it).  A successful [QueryIndex] for [kJ]
    neighbours returns an array with every slot filled, of length
    [min kJ n] where [n] is the number of hits the backend offered to the
    result queue, hence at most [kJ]; the results are in the order in which
    the queue gives them up, the current farthest each time, so no result
    is closer than one that comes after it. *)
Theorem QueryIndex_results_farthest_first (env : Env)
    (indexPointerJ queryVectorJ kJ : nat) (w w' : World)
    (results : list (option (Z * Z))) :
  QueryIndex env indexPointerJ queryVectorJ kJ w = (Ok results, w') →
  ∃ object hits,
    results = Some <$> hits
    ∧ length hits = min kJ (length (search_hits env object))
    ∧ length results ≤ kJ
    ∧ farthest_first hits.
Proof.
  intros Hrun.
  pose proof (QueryIndex_drains env indexPointerJ queryVectorJ kJ w I) as H.
  rewrite Hrun in H. destruct H as (object & ->).
  destruct (offer_all_spec kJ (search_hits env object)) as (_ & HSize & Hsorted).
  exists object, (result_of <$> queue_items (offer_all kJ (search_hits env object))).
  unfold Size in HSize. split; [reflexivity|].
  split; [rewrite length_fmap; exact HSize|].
  split; [rewrite !length_fmap; lia|].
  apply result_of_sorted, Hsorted.
Qed.

(** The scenario of the spec: an l2 index over [1,0], [0,1], [1,1] with ids
    1, 2, 3, queried for the two nearest neighbours of [1,0]. *)
Lemma QueryIndex_results_farthest_first_witness :
  ∃ hits, (QueryIndex (backend true true true true) 3 0 2
             (loaded "l2" [float_one; 0%Z])).1 = Ok (Some <$> hits)
        ∧ length hits = 2 ∧ farthest_first hits.
Proof.
  destruct (QueryIndex_results_farthest_first (backend true true true true)
              3 0 2 (loaded "l2" [float_one; 0%Z])
              (QueryIndex (backend true true true true) 3 0 2
                 (loaded "l2" [float_one; 0%Z])).2
              [Some (3, float_one); Some (1, 0)]%Z eq_refl)
    as (object & hits & Hres & Hlen & _ & Hsorted).
  exists hits. split; [rewrite <- Hres; reflexivity|]. split; assumption.
Defined.

(** C1 as stated fails: in that scenario the array is
    [(3, 1.0); (1, 0.0)], the nearest neighbour last. *)
Lemma QueryIndex_results_not_nearest_first :
  (QueryIndex (backend true true true true) 3 0 2
     (loaded "l2" [float_one; 0%Z])).1
  = Ok [Some (3, float_one); Some (1, 0)]%Z
  ∧ ¬ nearest_first [(3, float_one); (1, 0)]%Z.
Proof.
  split; [reflexivity|]. unfold nearest_first. intros Hsorted.
  apply StronglySorted_inv in Hsorted as [_ Hall].
  apply Forall_inv in Hall. vm_compute in Hall. apply Hall. reflexivity.
Qed.



(** C3.  When the constructor of the handle throws (here the index
    object cannot be constructed), [indexWrapper] has not been assigned,
    and the [catch] block deletes an uninitialised pointer. *)
Theorem LoadIndex_deletes_uninitialised_pointer :
  (LoadIndex (backend true true false true) "l2" (fresh_world [])).1
  = Undefined
  ∧ (LoadIndex (backend true false true true) "l2" (fresh_world [])).1
    = Undefined.
Proof. split; reflexivity. Qed.

(** C4.  A [bit_jaccard] handle queried with a vector of dimension 1:
    the exception leaves [QueryIndex] with the element buffer of the query
    vector still outstanding. *)
Theorem QueryIndex_bit_jaccard_leaks_buffer :
  (QueryIndex (backend true true true true) 3 0 1
     (loaded "bit_jaccard" [float_one])).1
  = Throw "Dimension of vectors for bit_jaccard must be > 1!"
  ∧ float_elems (loaded "bit_jaccard" [float_one]) = []
  ∧ float_elems (QueryIndex (backend true true true true) 3 0 1
                   (loaded "bit_jaccard" [float_one])).2 = [0].
Proof. repeat split. Qed.

(** C5. For the [bit_jaccard] space type and a vector of dimension
    D >= 2, the encoding done at build time and the one done at query time
    both succeed with the same buffer; its first [ceil(D/32)] words hold
    the input one bit per dimension, least significant bit first: bit
    [i mod 32] of word [i / 32] is [input[i] != 0.0f], and every other bit
    of those words is clear.  The next word holds D, and the encoded
    length is [ceil(D/32) + 1] words.  For D < 2 both encodings throw. *)
Theorem bit_jaccard_encoding (input : list Z) :
  (2 ≤ length input → (Z.of_nat (length input) < 2 ^ 31)%Z →
   ∃ buf,
     Build.encode "bit_jaccard" (length input) input
       = Ok (buf, words_for (length input) + 1)
     ∧ Query.encode "bit_jaccard" (length input) input
       = Ok (buf, words_for (length input) + 1)
     ∧ length (take (words_for (length input) + 1) buf)
       = words_for (length input) + 1
     ∧ length input ≤ 32 * words_for (length input) < length input + 32
     ∧ (∀ i x, input !! i = Some x →
          i / 32 < words_for (length input)
          ∧ ∃ w, buf !! (i / 32) = Some w
               ∧ Z.testbit w (Z.of_nat (i mod 32)) = float_ne_zero x)
     ∧ (∀ j, j < words_for (length input) →
          ∃ w, buf !! j = Some w
             ∧ ∀ k, Z.testbit w k = packed_bit input (length input) j k)
     ∧ buf !! words_for (length input) = Some (Z.of_nat (length input)))
  ∧ (length input < 2 →
     Build.encode "bit_jaccard" (length input) input
       = Throw "Dimension of vectors for bit_jaccard must be > 1!"
     ∧ Query.encode "bit_jaccard" (length input) input
       = Throw "Dimension of vectors for bit_jaccard must be > 1!").
Proof.
  split.
  - intros HD Hint.
    destruct (bit_encode_run input HD) as
      (buf & Hrun & Hlen & Hlast & _ & Hbits).
    pose proof (words_for_fit _ HD) as Hfit.
    exists buf. split; [exact Hrun|].
    split; [rewrite query_encode_build_encode; exact Hrun|].
    split; [rewrite length_take; lia|].
    split; [unfold words_for; lia|]. split; [|split; [exact Hbits|]].
    + intros i x Hx. pose proof (lookup_lt_Some _ _ _ Hx) as Hi.
      assert (i / 32 < words_for (length input)) as Hw
        by (unfold words_for; lia).
      split; [exact Hw|].
      destruct (Hbits _ Hw) as (w & Hlook & Hw_bits).
      exists w. split; [exact Hlook|]. rewrite Hw_bits. unfold packed_bit.
      rewrite Nat2Z.id.
      replace (32 * (i / 32) + i mod 32) with i by lia.
      rewrite !bool_decide_eq_true_2 by lia.
      rewrite (is_set_lookup _ _ _ Hx). reflexivity.
    + rewrite Hlast. f_equal. unfold u32. apply Z.mod_small. lia.
  - intros HD. unfold Query.encode, Build.encode. simpl String.eqb. cbv iota.
    destruct (decide (length input < 2)); [split; reflexivity|contradiction].
Qed.

Lemma bit_jaccard_encoding_witness :
  (∃ buf, Build.encode "bit_jaccard" 3 [float_one; 0; float_one]%Z
            = Ok (buf, 2)
        ∧ buf !! 0 = Some 5%Z ∧ buf !! 1 = Some 3%Z)
  ∧ Query.encode "bit_jaccard" 1 [float_one]
    = Throw "Dimension of vectors for bit_jaccard must be > 1!".
Proof.
  split.
  - destruct (bit_jaccard_encoding [float_one; 0; float_one]%Z) as [Hok _].
    destruct Hok as (buf & Hrun & _); [simpl; lia|simpl; lia|].
    exists buf. split; [exact Hrun|].
    injection Hrun as <-. split; reflexivity.
  - destruct (bit_jaccard_encoding [float_one]) as [_ Hfail].
    apply Hfail. simpl. lia.
Defined.

(** C6. For the [jaccard_sparse] space type, the encoding done at build
    time and the one done at query time both succeed with the same
    buffer; its first [numElems] cells are exactly the indices below D at
    which the input is nonzero, in ascending order, and [numElems] is the
    number of nonzero entries of the input. *)
Theorem jaccard_sparse_encoding (input : list Z) :
  ∃ buf numElems,
    Build.encode "jaccard_sparse" (length input) input = Ok (buf, numElems)
    ∧ Query.encode "jaccard_sparse" (length input) input = Ok (buf, numElems)
    ∧ take numElems buf = Z.of_nat <$> sparse_indices input (length input)
    ∧ numElems = length (List.filter float_ne_zero input)
    ∧ StronglySorted lt (sparse_indices input (length input))
    ∧ ∀ i, i ∈ sparse_indices input (length input)
           ↔ ∃ x, input !! i = Some x ∧ float_ne_zero x = true.
Proof.
  destruct (sparse_loop_inv input (length input)) as
    (buf & Hrun & _ & Htake & _); [lia|].
  exists buf, (length (sparse_indices input (length input))).
  split; [exact Hrun|]. split; [exact Hrun|]. split; [exact Htake|].
  split; [|split].
  - rewrite sparse_indices_count, firstn_all by lia. reflexivity.
  - apply filter_seq_sorted.
  - intros i. rewrite sparse_indices_elem. split.
    + intros [_ H]. exact H.
    + intros (x & Hx & Hnz). split; [eapply lookup_lt_Some, Hx|eauto].
Qed.

(** C7. On a buffer of exactly D cells, where every load and store of the
    model is checked against the buffer, no encoder goes out of bounds.
    The sparse encoding writes [numElems <= D] cells and the bitset
    encoding, for D >= 2, [ceil(D/32) + 1 <= D] cells; the cells after
    those are left as they were, and the buffer keeps its length. *)
Theorem encoders_stay_in_buffer (input : list Z) :
  (∀ spaceType,
     Build.encode spaceType (length input) input ≠ Undefined
     ∧ Query.encode spaceType (length input) input ≠ Undefined)
  ∧ (∃ buf numElems,
       Build.encode "jaccard_sparse" (length input) input = Ok (buf, numElems)
       ∧ length buf = length input ∧ numElems ≤ length input
       ∧ ∀ j, numElems ≤ j → buf !! j = input !! j)
  ∧ (2 ≤ length input →
     ∃ buf,
       Build.encode "bit_jaccard" (length input) input
         = Ok (buf, words_for (length input) + 1)
       ∧ length buf = length input
       ∧ words_for (length input) + 1 ≤ length input
       ∧ ∀ j, words_for (length input) + 1 ≤ j → buf !! j = input !! j).
Proof.
  split; [|split].
  - intros spaceType.
    change (Query.encode spaceType (length input) input)
      with (Build.encode spaceType (length input) input).
    pose proof (encode_defined spaceType input) as H.
    destruct (Build.encode spaceType (length input) input);
      [split; discriminate..|contradiction].
  - destruct (sparse_loop_inv input (length input)) as
      (buf & Hrun & Hlen & _ & Hrest); [lia|].
    exists buf, (length (sparse_indices input (length input))).
    split; [exact Hrun|]. split; [exact Hlen|].
    split; [apply sparse_indices_length_le|exact Hrest].
  - intros HD.
    destruct (bit_encode_run input HD) as (buf & Hrun & Hlen & _ & Hrest & _).
    exists buf. split; [exact Hrun|]. split; [exact Hlen|].
    split; [apply words_for_fit, HD|exact Hrest].
Qed.

Lemma encoders_stay_in_buffer_witness :
  ∃ buf, Build.encode "bit_jaccard" 2 [float_one; float_one] = Ok (buf, 2)
       ∧ length buf = 2.
Proof.
  destruct (encoders_stay_in_buffer [float_one; float_one]) as (_ & _ & Hbit).
  destruct Hbit as (buf & Hrun & Hlen & _); [simpl; lia|].
  exists buf. split; [exact Hrun|exact Hlen].
Defined.

(** C8. The encoding that [QueryIndex] performs is the one [CreateIndex]
    performs.  [CreateIndex] selects the encoder by [spaceTypeCpp] (lines
    116 and 124), [QueryIndex] by the description of the handle's space
    (lines 228 and 236); on a handle that [LoadIndex] built for the space
    type of the build that description is [spaceTypeCpp].  For every such
    space type and every raw vector, given to the loop of [CreateIndex] as
    vector [i] of a batch and to [QueryIndex] as the query vector: the two
    encoders have the same outcome; when they return, the dataset entry that
    line 145 constructs and the query object that line 259 constructs hold
    the same cells, the first [numElems] of the same encoded buffer, and an
    array that is its own buffer holds that buffer afterwards; when they
    throw, both calls throw the same exception. *)
Theorem query_encoding_is_build_encoding
    (envB envL envQ : Env) (spaceTypeCpp : string) (a : list Z)
    (vectorsJ : list nat) (i floatArrayJ : nat) (ids : list Z) (id : Z)
    (wB : World) (l : CreateLocals)
    (wL w1 : World) (indexPointerJ queryVectorJ kJ : nat) :
  vectorsJ !! i = Some floatArrayJ →
  jfloats wB !! floatArrayJ = Some a →
  idsCpp l = Some ids → ids !! i = Some id →
  object_alloc_ok envB (made wB) = true →
  wf wL →
  LoadIndex envL spaceTypeCpp wL = (Ok indexPointerJ, w1) →
  jfloats w1 !! queryVectorJ = Some a →
  object_alloc_ok envQ (made w1) = true → search_ok envQ = true →
  (∃ index space,
     heap w1 !! indexPointerJ = Some (NWrapper index space)
     ∧ (StrDesc space w1).1 = Ok spaceTypeCpp)
  ∧ Query.encode spaceTypeCpp (length a) a
    = Build.encode spaceTypeCpp (length a) a
  ∧ match Build.encode spaceTypeCpp (length a) a with
    | Ok (buf, numElems) =>
        (∃ wB',
           read_vector envB spaceTypeCpp vectorsJ (length a) i (wB, l)
           = (Ok (), (wB', push_back (next wB) l))
           ∧ heap wB' !! next wB
             = Some (NObject {| obj_id := id; obj_label := -1;
                                obj_data := take numElems buf |})
           ∧ jfloats wB' = if isCopy envB then jfloats wB
                           else <[floatArrayJ:=buf]> (jfloats wB))
        ∧ (∃ wQ,
             QueryIndex envQ indexPointerJ queryVectorJ kJ w1
             = (Ok (Some <$> (result_of <$>
                      queue_items
                        (offer_all kJ
                           (search_hits envQ
                              {| obj_id := -1; obj_label := -1;
                                 obj_data := take numElems buf |})))), wQ)
             ∧ jfloats wQ = if isCopy envQ then jfloats w1
                            else <[queryVectorJ:=buf]> (jfloats w1))
    | Throw what =>
        (read_vector envB spaceTypeCpp vectorsJ (length a) i (wB, l)).1
        = Throw what
        ∧ (QueryIndex envQ indexPointerJ queryVectorJ kJ w1).1 = Throw what
    | Undefined => False
    end.
Proof.
  intros Hv Ha Hids Hid HallocB Hwf Hload Hq HallocQ Hsearch.
  apply LoadIndex_returns in Hload as (-> & Hheap & _).
  assert (heap w1 !! S (S (next wL)) = Some (NWrapper (S (next wL)) (next wL)))
    as Hwrapper by (rewrite Hheap; apply lookup_insert_eq).
  assert (heap w1 !! next wL = Some (NSpace spaceTypeCpp)) as Hspace.
  { rewrite Hheap. rewrite !lookup_insert_ne by lia. apply lookup_insert_eq. }
  split.
  { exists (S (next wL)), (next wL). split; [exact Hwrapper|].
    unfold StrDesc. rewrite Hspace. reflexivity. }
  split; [reflexivity|].
  pose proof (encode_defined spaceTypeCpp a) as Hdef.
  pose proof (encode_throws spaceTypeCpp a) as Hthrow.
  destruct (Build.encode spaceTypeCpp (length a) a) as [[buf numElems]|what|]
    eqn:Henc; [| |contradiction].
  - split.
    + destruct (read_vector_builds envB spaceTypeCpp vectorsJ i floatArrayJ a
                  ids id wB l buf numElems Hv Ha Hids Hid Henc HallocB)
        as (wB' & Hrun & HheapB & Hj).
      exists wB'. split; [exact Hrun|]. split; [|exact Hj].
      rewrite HheapB. apply lookup_insert_eq.
    + apply (QueryIndex_searches_encoding envQ (S (S (next wL))) queryVectorJ
               kJ w1 (S (next wL)) (next wL) spaceTypeCpp a buf numElems);
        [lia|assumption..].
  - destruct (Hthrow what eq_refl) as (-> & -> & Hsmall). split.
    + apply (read_vector_rejects envB "bit_jaccard" vectorsJ i floatArrayJ a
               wB l); assumption.
    + apply (QueryIndex_bit_jaccard_small_dim envQ (S (S (next wL)))
               queryVectorJ kJ w1 (S (next wL)) (next wL) a);
        [lia|assumption..].
Qed.

(** The vector that holds dimension 1 alone, as the second vector of a
    jaccard_sparse batch with ids 1 and 2 and as a query on a
    jaccard_sparse handle: the dataset entry and the query object both hold
    the one index 1. *)
Lemma query_encoding_is_build_encoding_witness :
  (∃ wB',
     read_vector (backend true true true true) "jaccard_sparse" [0; 1]
       (length [0; float_one]%Z) 1
       (two_vectors, {| dataset := []; idsCpp := Some [1; 2]%Z |})
     = (Ok (),
        (wB', push_back (next two_vectors)
                {| dataset := []; idsCpp := Some [1; 2]%Z |}))
     ∧ heap wB' !! next two_vectors
       = Some (NObject {| obj_id := 2; obj_label := -1; obj_data := [1%Z] |})
     ∧ jfloats wB' = jfloats two_vectors)
  ∧ (∃ wQ,
       QueryIndex (backend true true true true) 3 0 2
         (loaded "jaccard_sparse" [0; float_one]%Z)
       = (Ok (Some <$> (result_of <$>
                queue_items
                  (offer_all 2
                     (search_hits (backend true true true true)
                        {| obj_id := -1; obj_label := -1;
                           obj_data := [1%Z] |})))), wQ)
       ∧ jfloats wQ = jfloats (loaded "jaccard_sparse" [0; float_one]%Z)).
Proof.
  destruct (query_encoding_is_build_encoding
              (backend true true true true) (backend true true true true)
              (backend true true true true) "jaccard_sparse" [0; float_one]%Z
              [0; 1] 1 1 [1; 2]%Z 2 two_vectors
              {| dataset := []; idsCpp := Some [1; 2]%Z |}
              (fresh_world [[0; float_one]%Z])
              (loaded "jaccard_sparse" [0; float_one]%Z) 3 0 2)
    as (_ & _ & Hsame);
    [reflexivity|reflexivity|reflexivity|reflexivity|reflexivity
    |apply wf_fresh_world|vm_compute; reflexivity|reflexivity|reflexivity
    |reflexivity|].
  exact Hsame.
Defined.

(** C9.  [CreateIndex] for [bit_jaccard] on one vector of dimension 1:
    it throws the encoding-constraint error before any dataset entry is
    constructed, but the element buffer of the vector is still
    outstanding when the exception leaves. *)
Theorem CreateIndex_bit_jaccard_leaks_buffer :
  (CreateIndex (backend true true true true) [7]%Z [0] "bit_jaccard"
     (fresh_world [[float_one]])).1
  = Throw "Dimension of vectors for bit_jaccard must be > 1!"
  ∧ made (CreateIndex (backend true true true true) [7]%Z [0] "bit_jaccard"
            (fresh_world [[float_one]])).2 = 0
  ∧ float_elems (CreateIndex (backend true true true true) [7]%Z [0]
                   "bit_jaccard" (fresh_world [[float_one]])).2 = [0]
  ∧ ¬ nothing_held (CreateIndex (backend true true true true) [7]%Z [0]
                      "bit_jaccard" (fresh_world [[float_one]])).2.
Proof.
  split; [reflexivity|]. split; [reflexivity|]. split; [reflexivity|].
  intros (_ & Hfloats & _). discriminate Hfloats.
Qed.

(** C10 (as the code has it).  [CreateIndex] and [QueryIndex] release
    every element buffer in abort mode and never copy one back, so when
    the runtime hands out copies of the array elements the Java arrays
    hold their original contents after the call, however it ends. *)
Theorem arrays_unchanged_when_copied (env : Env) (w : World) :
  isCopy env = true →
  (∀ idsJ vectorsJ spaceTypeCpp,
     jfloats (CreateIndex env idsJ vectorsJ spaceTypeCpp w).2 = jfloats w)
  ∧ (∀ indexPointerJ queryVectorJ kJ,
       jfloats (QueryIndex env indexPointerJ queryVectorJ kJ w).2 = jfloats w).
Proof.
  intros Hcopy. split.
  - intros idsJ vectorsJ sp.
    pose proof (CreateIndex_keeps_arrays env idsJ vectorsJ sp (jfloats w)
                  Hcopy w eq_refl) as H.
    destruct (CreateIndex env idsJ vectorsJ sp w) as [[?| |] ?]; exact H.
  - intros p q k.
    pose proof (QueryIndex_keeps_arrays env p q k (jfloats w)
                  Hcopy w eq_refl) as H.
    destruct (QueryIndex env p q k w) as [[?| |] ?]; exact H.
Qed.

Lemma arrays_unchanged_when_copied_witness :
  (CreateIndex (backend true true true true) [7]%Z [0] "jaccard_sparse"
     (fresh_world [[0; float_one]]%Z)).1 = Ok ()
  ∧ jfloats (CreateIndex (backend true true true true) [7]%Z [0]
               "jaccard_sparse" (fresh_world [[0; float_one]]%Z)).2
    = [[0; float_one]]%Z.
Proof.
  split; [reflexivity|].
  destruct (arrays_unchanged_when_copied (backend true true true true)
              (fresh_world [[0; float_one]]%Z) eq_refl) as [Hcreate _].
  apply Hcreate.
Defined.

(** C10 as stated fails: a runtime may hand out the array's own storage
    ([isCopy] false), and then the stores of the encoder are stores into
    the caller's array, which releasing in abort mode does not undo.  The
    sparse encoding of [0.0, 1.0] leaves the array holding the bits of the
    index 1 in its first cell. *)
Lemma arrays_overwritten_when_not_copied :
  (CreateIndex (backend false true true true) [7]%Z [0] "jaccard_sparse"
     (fresh_world [[0; float_one]]%Z)).1 = Ok ()
  ∧ jfloats (CreateIndex (backend false true true true) [7]%Z [0]
               "jaccard_sparse" (fresh_world [[0; float_one]]%Z)).2
    = [[1; float_one]]%Z
  ∧ jfloats (CreateIndex (backend false true true true) [7]%Z [0]
               "jaccard_sparse" (fresh_world [[0; float_one]]%Z)).2
    ≠ jfloats (fresh_world [[0; float_one]]%Z).
Proof. split; [reflexivity|]. split; [reflexivity|discriminate]. Qed.

(** * Beyond the claims *)

(** ** What the encodings keep of a vector *)

Lemma sparse_encoded (input : list Z) :
  encoded (Build.encode "jaccard_sparse" (length input) input)
  = Ok (Z.of_nat <$> sparse_indices input (length input)).
Proof.
  destruct (sparse_loop_inv input (length input)) as
    (buf & Hrun & _ & Htake & _); [lia|].
  unfold Build.encode in *. simpl String.eqb. cbv iota.
  rewrite Hrun. simpl. rewrite Htake. reflexivity.
Qed.

(** X1.  Reading the sparse encoding of a vector back gives, for every
    dimension, whether the entry was nonzero: the encoding keeps the
    zero pattern of the vector and nothing else. *)
Theorem sparse_round_trip (input : list Z) :
  ∃ indices,
    encoded (Build.encode "jaccard_sparse" (length input) input) = Ok indices
    ∧ encoded (Query.encode "jaccard_sparse" (length input) input) = Ok indices
    ∧ sparse_decode (length input) indices = float_ne_zero <$> input.
Proof.
  exists (Z.of_nat <$> sparse_indices input (length input)).
  split; [apply sparse_encoded|]. split; [apply sparse_encoded|].
  unfold sparse_decode. apply list_eq. intros i.
  rewrite !list_lookup_fmap.
  destruct (decide (i < length input)) as [Hi|Hi].
  - rewrite lookup_seq_lt by exact Hi. simpl.
    destruct (lookup_lt_is_Some_2 input i Hi) as [x Hx]. rewrite Hx. simpl.
    f_equal. apply eq_true_iff_eq. rewrite bool_decide_eq_true.
    rewrite (list_elem_of_fmap_inj Z.of_nat), sparse_indices_elem. split.
    + intros (_ & y & Hy & Hnz). congruence.
    + intros Hnz. split; [exact Hi|]. eauto.
  - rewrite lookup_seq_ge, lookup_ge_None_2 by lia. reflexivity.
Qed.

Lemma bit_encoded_last buf n (x : Z) :
  buf !! n = Some x → last (take (n + 1) buf) = Some x.
Proof.
  intros Hx. rewrite Nat.add_1_r, (take_S_r _ _ _ Hx). apply last_snoc.
Qed.

(** X2.  Reading the packed encoding of a vector of dimension D >= 2 back
    gives, for every dimension, whether the entry was nonzero: the trailing
    word tells where the bits end, and the padding bits of the last packed
    word are never read. *)
Theorem bit_round_trip (input : list Z) :
  2 ≤ length input → (Z.of_nat (length input) < 2 ^ 31)%Z →
  ∃ words,
    encoded (Build.encode "bit_jaccard" (length input) input) = Ok words
    ∧ encoded (Query.encode "bit_jaccard" (length input) input) = Ok words
    ∧ bit_decode words = float_ne_zero <$> input.
Proof.
  intros HD Hint.
  destruct (bit_encode_run input HD) as
    (buf & Hrun & Hlen & Hlast & _ & Hbits).
  pose proof (words_for_fit _ HD) as Hfit.
  exists (take (words_for (length input) + 1) buf).
  change (Query.encode "bit_jaccard" (length input) input)
    with (Build.encode "bit_jaccard" (length input) input).
  rewrite Hrun. split; [reflexivity|]. split; [reflexivity|].
  unfold bit_decode. rewrite (bit_encoded_last _ _ _ Hlast). simpl.
  assert (u32 (Z.of_nat (length input)) = Z.of_nat (length input)) as ->
    by (unfold u32; apply Z.mod_small; lia).
  rewrite Nat2Z.id. apply list_eq. intros i. rewrite !list_lookup_fmap.
  destruct (decide (i < length input)) as [Hi|Hi].
  - rewrite lookup_seq_lt by exact Hi. simpl.
    destruct (lookup_lt_is_Some_2 input i Hi) as [x Hx]. rewrite Hx. simpl.
    f_equal.
    assert (i / 32 < words_for (length input)) as Hw
      by (unfold words_for; lia).
    destruct (Hbits _ Hw) as (w & Hlook & Hw_bits).
    rewrite lookup_total_take_lt by lia.
    rewrite (list_lookup_total_correct _ _ _ Hlook), Hw_bits.
    unfold packed_bit. rewrite Nat2Z.id.
    replace (32 * (i / 32) + i mod 32) with i by lia.
    rewrite !bool_decide_eq_true_2 by lia.
    rewrite (is_set_lookup _ _ _ Hx). reflexivity.
  - rewrite lookup_seq_ge, lookup_ge_None_2 by lia. reflexivity.
Qed.

Lemma bit_round_trip_witness :
  ∃ words,
    encoded (Build.encode "bit_jaccard" 3 [float_one; 0; float_one]%Z) = Ok words
    ∧ bit_decode words = [true; false; true].
Proof.
  destruct (bit_round_trip [float_one; 0; float_one]%Z) as (words & H & _ & Hd);
    [simpl; lia|simpl; lia|].
  exists words. split; [exact H|exact Hd].
Defined.

Lemma is_set_pattern input i :
  is_set input i = default false ((float_ne_zero <$> input) !! i).
Proof. unfold is_set. rewrite list_lookup_fmap. reflexivity. Qed.

Lemma same_pattern_is_set v1 v2 i :
  float_ne_zero <$> v1 = float_ne_zero <$> v2 → is_set v1 i = is_set v2 i.
Proof. intros H. rewrite !is_set_pattern, H. reflexivity. Qed.

Lemma same_pattern_sparse_indices v1 v2 n :
  float_ne_zero <$> v1 = float_ne_zero <$> v2 →
  sparse_indices v1 n = sparse_indices v2 n.
Proof.
  intros H. unfold sparse_indices. apply List.filter_ext.
  intros i. apply same_pattern_is_set, H.
Qed.

Lemma bit_encoded_same_pattern v1 v2 :
  float_ne_zero <$> v1 = float_ne_zero <$> v2 →
  encoded (Build.encode "bit_jaccard" (length v1) v1)
  = encoded (Build.encode "bit_jaccard" (length v2) v2).
Proof.
  intros Hpat.
  assert (length v1 = length v2) as Hlen
    by (rewrite <- (length_fmap float_ne_zero v1), Hpat; apply length_fmap).
  destruct (decide (2 ≤ length v1)) as [HD|HD].
  - destruct (bit_encode_run v1 HD) as (b1 & -> & Hl1 & Hlast1 & _ & Hbits1).
    destruct (bit_encode_run v2) as (b2 & -> & Hl2 & Hlast2 & _ & Hbits2);
      [lia|].
    pose proof (words_for_fit _ HD) as Hfit.
    simpl. f_equal. rewrite <- Hlen in *. apply list_eq. intros j.
    destruct (decide (j < words_for (length v1) + 1)) as [Hj|Hj];
      [|rewrite !lookup_take_ge by lia; reflexivity].
    rewrite !lookup_take_lt by exact Hj.
    destruct (decide (j = words_for (length v1))) as [->|Hne];
      [rewrite Hlast1, Hlast2; reflexivity|].
    destruct (Hbits1 j) as (x1 & -> & Hx1); [lia|].
    destruct (Hbits2 j) as (x2 & -> & Hx2); [lia|].
    f_equal. apply Z.bits_inj. intros k. rewrite Hx1, Hx2.
    unfold packed_bit. rewrite (same_pattern_is_set v1 v2) by exact Hpat.
    reflexivity.
  - unfold Build.encode. simpl String.eqb. cbv iota.
    rewrite !decide_True by lia. reflexivity.
Qed.

(** X3.  Both set encodings forget the magnitudes: vectors with the same
    zero pattern get the same encoding.  The packed encoding tells vectors
    of different zero patterns apart; the sparse encoding does so among
    vectors of one dimension, and does not keep the dimension. *)
Theorem encodings_keep_the_zero_pattern (v1 v2 : list Z) :
  (float_ne_zero <$> v1 = float_ne_zero <$> v2 →
   encoded (Build.encode "jaccard_sparse" (length v1) v1)
   = encoded (Build.encode "jaccard_sparse" (length v2) v2)
   ∧ encoded (Build.encode "bit_jaccard" (length v1) v1)
     = encoded (Build.encode "bit_jaccard" (length v2) v2))
  ∧ (length v1 = length v2 →
     encoded (Build.encode "jaccard_sparse" (length v1) v1)
     = encoded (Build.encode "jaccard_sparse" (length v2) v2) →
     float_ne_zero <$> v1 = float_ne_zero <$> v2)
  ∧ (2 ≤ length v1 → (Z.of_nat (length v1) < 2 ^ 31)%Z →
     2 ≤ length v2 → (Z.of_nat (length v2) < 2 ^ 31)%Z →
     encoded (Build.encode "bit_jaccard" (length v1) v1)
     = encoded (Build.encode "bit_jaccard" (length v2) v2) →
     float_ne_zero <$> v1 = float_ne_zero <$> v2)
  ∧ encoded (Build.encode "jaccard_sparse" (length (v1 ++ [0%Z])) (v1 ++ [0%Z]))
    = encoded (Build.encode "jaccard_sparse" (length v1) v1).
Proof.
  split; [|split; [|split]].
  - intros Hpat. split; [|apply bit_encoded_same_pattern, Hpat].
    assert (length v1 = length v2) as Hlen
      by (rewrite <- (length_fmap float_ne_zero v1), Hpat; apply length_fmap).
    rewrite !sparse_encoded, Hlen.
    rewrite (same_pattern_sparse_indices v1 v2) by exact Hpat. reflexivity.
  - intros Hlen Henc.
    destruct (sparse_round_trip v1) as (i1 & H1 & _ & <-).
    destruct (sparse_round_trip v2) as (i2 & H2 & _ & <-).
    rewrite H1, H2 in Henc. injection Henc as ->. rewrite Hlen. reflexivity.
  - intros HD1 Hint1 HD2 Hint2 Henc.
    destruct (bit_round_trip v1 HD1 Hint1) as (w1 & H1 & _ & <-).
    destruct (bit_round_trip v2 HD2 Hint2) as (w2 & H2 & _ & <-).
    rewrite H1, H2 in Henc. injection Henc as ->. reflexivity.
  - rewrite !sparse_encoded. f_equal. f_equal.
    rewrite length_app. simpl. rewrite Nat.add_1_r, sparse_indices_S.
    assert (is_set (v1 ++ [0%Z]) (length v1) = false) as ->.
    { unfold is_set. rewrite lookup_app_r, Nat.sub_diag by lia. reflexivity. }
    rewrite app_nil_r. unfold sparse_indices.
    apply List.filter_ext_in. intros i Hi%in_seq.
    unfold is_set. rewrite lookup_app_l by lia. reflexivity.
Qed.

Lemma encodings_keep_the_zero_pattern_witness :
  encoded (Build.encode "jaccard_sparse" 2 [float_one; 0%Z])
  = encoded (Build.encode "jaccard_sparse" 2 [float_sqrt2; 0x80000000%Z])
  ∧ encoded (Build.encode "bit_jaccard" 2 [float_one; 0%Z])
    = encoded (Build.encode "bit_jaccard" 2 [float_sqrt2; 0x80000000%Z]).
Proof.
  destruct (encodings_keep_the_zero_pattern
              [float_one; 0%Z] [float_sqrt2; 0x80000000%Z]) as [H _].
  apply H. reflexivity.
Defined.

(** ** Rules for [triple_what] *)

Lemma triple_what_bind {St A B} (P : St → Prop) (m : M St A)
    (k : A → M St B) (Q : A → St → Prop) (R : B → St → Prop) E U :
  triple_what P m Q E U → (∀ a, triple_what (Q a) (k a) R E U) →
  triple_what P (m ≫= k) R E U.
Proof.
  intros Hm Hk s Hs. specialize (Hm s Hs). unfold mbind, M_bind.
  destruct (m s) as [[a| |] s']; auto. apply (Hk a s' Hm).
Qed.

Lemma triple_what_conseq {St A} (P P' : St → Prop) (m : M St A)
    (Q Q' : A → St → Prop) (E E' : string → St → Prop) (U U' : St → Prop) :
  triple_what P' m Q' E' U' →
  (∀ s, P s → P' s) → (∀ a s, Q' a s → Q a s) →
  (∀ e s, E' e s → E e s) → (∀ s, U' s → U s) →
  triple_what P m Q E U.
Proof.
  intros Hm HP HQ HE HU s Hs. specialize (Hm s (HP s Hs)).
  destruct (m s) as [[a| |] s']; auto.
Qed.

Lemma triple_what_try {St A} (P : St → Prop) (body : M St A) handler
    (Q : A → St → Prop) (E1 E : string → St → Prop) U :
  triple_what P body Q E1 U →
  (∀ e, triple_what (E1 e) handler (λ _, E e) E U) →
  triple_what P (try_catch_rethrow body handler) Q E U.
Proof.
  intros Hb Hh s Hs. specialize (Hb s Hs). unfold try_catch_rethrow.
  destruct (body s) as [[a| |] s']; auto.
  specialize (Hh what s' Hb). destruct (handler s') as [[[]| |] s'']; auto.
Qed.

Lemma triple_what_scoped {St A} (P : St → Prop) (body : M St A) cleanup
    (Q Q' : A → St → Prop) (E E' : string → St → Prop) U :
  triple_what P body Q' E' U →
  (∀ a s, Q' a s → Q a (cleanup s)) → (∀ e s, E' e s → E e (cleanup s)) →
  triple_what P (scoped body cleanup) Q E U.
Proof.
  intros Hb HQ HE s Hs. specialize (Hb s Hs). unfold scoped.
  destruct (body s) as [[a| |] s']; auto.
Qed.

Lemma triple_what_for_range {St} (I : nat → St → Prop) body
    (E : string → St → Prop) U n : ∀ i,
  (∀ j, i ≤ j < i + n → triple_what (I j) (body j) (λ _, I (S j)) E U) →
  triple_what (I i) (for_range body i n) (λ _, I (i + n)) E U.
Proof.
  induction n as [|n IH]; intros i Hbody.
  - rewrite Nat.add_0_r. intros s Hs. exact Hs.
  - simpl. eapply triple_what_bind; [apply Hbody; lia|].
    intros []. rewrite <- Nat.add_succ_comm. apply IH.
    intros j Hj. apply Hbody. lia.
Qed.

Lemma triple_what_run_frame {L A} (P : World → Prop) (m : M (World * L) A)
    locals (Q : A → World → Prop) (E : string → World → Prop) U :
  triple_what (λ s, P s.1 ∧ s.2 = locals) m
    (λ a s, Q a s.1) (λ e s, E e s.1) (λ s, U s.1) →
  triple_what P (run_frame m locals) Q E U.
Proof.
  intros H w Hw. specialize (H (w, locals) (conj Hw eq_refl)).
  unfold run_frame. destruct (m (w, locals)) as [[a| |] [w' l']]; exact H.
Qed.

(** ** An account of the buffers of [CreateIndex] *)

Lemma remove_first_head h l : remove_first h (h :: l) = l.
Proof. simpl. rewrite decide_True; reflexivity. Qed.

(** One iteration of the loop over the vectors: when it returns, one more
    object has been constructed and the vector's element buffer has been
    acquired and released; when it throws, nothing has been constructed,
    and the buffer is outstanding exactly if the exception came from the
    encoder or from the construction of the object. *)
Lemma read_vector_account env sp vectorsJ dim i w l :
  match read_vector env sp vectorsJ dim i (w, l) with
  | (Ok _, (w', _)) =>
      float_elems w' = float_elems w ∧ int_elems w' = int_elems w
      ∧ stray_releases w' = stray_releases w ∧ made w' = S (made w)
  | (Throw what, (w', _)) =>
      int_elems w' = int_elems w ∧ stray_releases w' = stray_releases w
      ∧ made w' = made w
      ∧ buffers_after_throw vectorsJ (float_elems w) what w'
  | (Undefined, _) => True
  end.
Proof.
  unfold buffers_after_throw, thrown_while_holding.
  unfold read_vector, in_world, GetObjectArrayElement, GetJavaFloatArrayLength,
    GetFloatArrayElements, stored_in_place, read_idsCpp, get_locals, set_locals,
    modify, ReleaseFloatArrayElements, new_Object, alloc, lift, throw.
  unfold mbind, M_bind, mret, M_ret. simpl.
  destruct (vectorsJ !! i) as [floatArrayJ|] eqn:Hi; simpl.
  2:{ repeat split. right. split; [intros [[=]|[=]]|reflexivity]. }
  assert (floatArrayJ ∈ vectorsJ) as Hin
    by (eapply list_elem_of_lookup_2, Hi).
  destruct (jfloats w !! floatArrayJ) as [a|] eqn:Ha; simpl.
  2:{ repeat split. right. split; [intros [[=]|[=]]|reflexivity]. }
  destruct (decide (dim ≠ length a)) as [Hne|Heq]; simpl.
  { repeat split. right. split; [intros [[=]|[=]]|reflexivity]. }
  rewrite Ha. simpl.
  assert (∀ what, Build.encode sp dim a = Throw what →
    what = "Dimension of vectors for bit_jaccard must be > 1!") as Hthrow.
  { intros what. unfold Build.encode.
    destruct (String.eqb sp "jaccard_sparse").
    - apply dec_stable in Heq. subst dim.
      destruct (sparse_loop_inv a (length a)) as (? & -> & _); [lia|].
      discriminate.
    - destruct (String.eqb sp "bit_jaccard"); [|discriminate].
      destruct (decide (dim < 2)); [congruence|].
      apply dec_stable in Heq. subst dim.
      destruct (bit_loop_inv a (length a)) as (? & -> & Hl & _); [lia|].
      simpl. unfold store. destruct (decide _); simpl; discriminate. }
  destruct (Build.encode sp dim a) as [[buf n]|what|]; simpl; [| |exact I].
  2:{ repeat split. left. rewrite (Hthrow what eq_refl).
      split; [left; reflexivity|]. eauto. }
  destruct (idsCpp l) as [ids|]; simpl.
  2:{ destruct (isCopy env); exact I. }
  unfold load. destruct (ids !! i) as [id|]; simpl.
  2:{ destruct (isCopy env); exact I. }
  destruct (isCopy env); simpl;
    (destruct (object_alloc_ok env _); simpl;
     [destruct (decide (n ≤ length buf)); simpl; [|exact I];
      rewrite decide_True by (apply elem_of_cons; left; reflexivity); simpl;
      rewrite decide_True by reflexivity; repeat split
     |repeat split; left; split; [right; reflexivity|eauto]]).
Qed.

Lemma not_thrown_while_holding what :
  what = "CreateMethod failed" ∨ what = "CreateIndex failed"
  ∨ what = "SaveIndex failed" ∨ what = "Unable to get array length"
  ∨ what = "Number of IDs does not match number of vectors"
  ∨ what = "CreateSpace failed" →
  ¬ thrown_while_holding what.
Proof.
  intros [->|[->|[->|[->|[->| ->]]]]] [H|H]; discriminate H.
Qed.

(** The whole of [CreateIndex], by outcome.  [fl], [ie], [st] and [m0]
    are the outstanding float buffers, the outstanding ids buffers, the
    stray releases and the objects constructed before the call. *)
Lemma CreateIndex_account env idsJ vectorsJ sp w :
  match CreateIndex env idsJ vectorsJ sp w with
  | (Ok _, w') =>
      float_elems w' = float_elems w ∧ int_elems w' = int_elems w
      ∧ stray_releases w' = stray_releases w
      ∧ made w' = made w + length vectorsJ
      ∧ length idsJ = length vectorsJ
  | (Throw what, w') =>
      buffers_after_throw vectorsJ (float_elems w) what w'
      ∧ ((stray_releases w' = stray_releases w ∧ int_elems w' = int_elems w
          ∧ (made w' < made w + length vectorsJ
             ∨ create_space_ok env = false
             ∨ length idsJ ≠ length vectorsJ))
         ∨ (made w' = made w + length vectorsJ
            ∧ stray_releases w' + int_elems w
              = S (stray_releases w + int_elems w')))
  | (Undefined, _) => True
  end.
Proof.
  set (fl := float_elems w). set (ie := int_elems w).
  set (st := stray_releases w). set (m0 := made w).
  set (n := length vectorsJ).
  set (Ethrow := λ what (w' : World),
    buffers_after_throw vectorsJ fl what w'
    ∧ ((stray_releases w' = st ∧ int_elems w' = ie
        ∧ (made w' < m0 + n ∨ create_space_ok env = false ∨ length idsJ ≠ n))
       ∨ (made w' = m0 + n ∧ stray_releases w' + ie = S (st + int_elems w')))).
  set (Same := λ w' : World,
    float_elems w' = fl ∧ int_elems w' = ie ∧ stray_releases w' = st
    ∧ made w' = m0).
  assert (triple_what Same (CreateIndex env idsJ vectorsJ sp)
    (λ _ w', float_elems w' = fl ∧ int_elems w' = ie ∧ stray_releases w' = st
             ∧ made w' = m0 + n ∧ length idsJ = n)
    Ethrow (λ _, True)) as Hmain.
  2:{ apply (Hmain w). repeat split. }
  unfold CreateIndex.
  eapply triple_what_bind with (Q := λ _, Same).
  { intros w0 (H1 & H2 & H3 & H4). unfold CreateSpace.
    destruct (create_space_ok env) eqn:Hspace; simpl.
    - repeat split; assumption.
    - split; [right; split; [apply not_thrown_while_holding; tauto|exact H1]|].
      left. repeat split; auto. }
  intros space.
  eapply triple_what_scoped with
    (Q' := λ _ w', float_elems w' = fl ∧ int_elems w' = ie
                   ∧ stray_releases w' = st ∧ made w' = m0 + n
                   ∧ length idsJ = n)
    (E' := Ethrow); [|intros ? ? H; exact H|intros ? ? H; exact H].
  cbv zeta. destruct (decide (length idsJ ≠ length vectorsJ)) as [Hne|Heq].
  { intros w0 (H1 & H2 & H3 & H4). simpl.
    split; [right; split; [apply not_thrown_while_holding; tauto|exact H1]|].
    left. repeat split; auto. }
  apply dec_stable in Heq.
  eapply triple_what_bind with (Q := λ _, Same).
  { intros w0 (H1 & H2 & H3 & H4).
    unfold GetInnerDimensionOf2dJavaFloatArray, GetJavaFloatArrayLength.
    destruct vectorsJ as [|first rest]; [repeat split; assumption|].
    destruct (jfloats w0 !! first); simpl; [repeat split; assumption|].
    split; [right; split; [apply not_thrown_while_holding; tauto|exact H1]|].
    left. repeat split; auto. left. subst n. simpl. lia. }
  intros dim. apply triple_what_run_frame.
  set (E1 := λ what (s : World * CreateLocals),
    idsCpp s.2 = None
    ∨ (buffers_after_throw vectorsJ fl what s.1
       ∧ stray_releases s.1 = st
       ∧ ((int_elems s.1 = S ie ∧ made s.1 < m0 + n)
          ∨ (int_elems s.1 = ie ∧ made s.1 = m0 + n)))).
  apply triple_what_try with (E1 := E1).
  - (* the try block *)
    unfold CreateIndex_try.
    eapply triple_what_bind with
      (Q := λ _ s, float_elems s.1 = fl ∧ int_elems s.1 = S ie
                   ∧ stray_releases s.1 = st ∧ made s.1 = m0 + 0).
    { intros [w0 l] [(H1 & H2 & H3 & H4) Hl]. simpl in *.
      unfold GetIntArrayElements.
      destruct (int_elements_ok env); simpl;
        [repeat split; auto; lia|left; rewrite Hl; reflexivity]. }
    intros ids.
    eapply triple_what_bind with
      (Q := λ _ s, float_elems s.1 = fl ∧ int_elems s.1 = S ie
                   ∧ stray_releases s.1 = st ∧ made s.1 = m0 + 0).
    { intros [w0 l] H. exact H. }
    intros [].
    eapply triple_what_bind.
    { apply (triple_what_for_range
               (λ j s, float_elems s.1 = fl ∧ int_elems s.1 = S ie
                       ∧ stray_releases s.1 = st ∧ made s.1 = m0 + j)).
      intros j Hj [w0 l] (H1 & H2 & H3 & H4). simpl in *.
      pose proof (read_vector_account env sp vectorsJ dim j w0 l) as Hacc.
      destruct (read_vector env sp vectorsJ dim j (w0, l))
        as [[[]|what|] [w1 l1]]; [| |exact I].
      - destruct Hacc as (A1 & A2 & A3 & A4). simpl.
        repeat split; try congruence. lia.
      - destruct Hacc as (A2 & A3 & A4 & A1). unfold E1. simpl. right.
        rewrite H1 in A1. split; [exact A1|]. split; [congruence|].
        left. split; [congruence|]. fold n in Hj. lia. }
    intros []. simpl.
    eapply triple_what_bind with
      (Q := λ _ s, float_elems s.1 = fl ∧ int_elems s.1 = ie
                   ∧ stray_releases s.1 = st ∧ made s.1 = m0 + n).
    { intros [w0 l] (H1 & H2 & H3 & H4). simpl in *.
      unfold in_world, ReleaseIntArrayElements. rewrite H2. simpl.
      repeat split; assumption. }
    intros [].
    eapply triple_what_bind with
      (Q := λ _ s, float_elems s.1 = fl ∧ int_elems s.1 = ie
                   ∧ stray_releases s.1 = st ∧ made s.1 = m0 + n).
    { intros [w0 l] (H1 & H2 & H3 & H4). simpl in *.
      unfold in_world, CreateMethod.
      destruct (create_method_ok env); simpl; [repeat split; assumption|].
      unfold E1. simpl. right.
      split; [right; split; [apply not_thrown_while_holding; tauto|exact H1]|].
      split; [exact H3|]. right. split; assumption. }
    intros index.
    eapply triple_what_scoped with
      (Q' := λ _ s, float_elems s.1 = fl ∧ int_elems s.1 = ie
                    ∧ stray_releases s.1 = st ∧ made s.1 = m0 + n)
      (E' := E1).
    + intros [w0 l] (H1 & H2 & H3 & H4). simpl in *.
      unfold backend_call, mbind, M_bind, get_locals, in_world, modify, throw,
        lift, mret, M_ret.
      destruct (create_index_ok env); simpl.
      * destruct (save_index_ok env); simpl; [repeat split; assumption|].
        unfold E1. simpl. right.
        split; [right; split; [apply not_thrown_while_holding; tauto|exact H1]|].
        split; [exact H3|]. right. split; assumption.
      * unfold E1. simpl. right.
        split; [right; split; [apply not_thrown_while_holding; tauto|exact H1]|].
        split; [exact H3|]. right. split; assumption.
    + intros _ [w0 l] (H1 & H2 & H3 & H4). simpl in *.
      repeat split; auto.
    + intros e [w0 l] H. exact H.
  - (* the handler *)
    intros e [w0 l] Hthrown. unfold E1 in Hthrown. simpl in *.
    unfold CreateIndex_cleanup, read_idsCpp, get_locals, in_world, modify,
      ReleaseIntArrayElements, lift, mbind, M_bind, mret, M_ret. simpl.
    destruct (idsCpp l); simpl; [|exact I].
    destruct Hthrown as [Hnone|(Hbuf & Hst & Hcase)]; [discriminate Hnone|].
    unfold Ethrow. destruct Hcase as [[Hint Hmade]|[Hint Hmade]].
    + rewrite Hint. simpl. split; [exact Hbuf|]. left. repeat split; auto.
    + rewrite Hint. destruct ie as [|k] eqn:Hie; simpl.
      * split; [exact Hbuf|]. right. split; [exact Hmade|]. lia.
      * split; [exact Hbuf|]. right. split; [exact Hmade|]. lia.
Qed.

(** X4.  When [CreateIndex] returns, the ids and the vectors were equal
    in number, one [similarity::Object] has been constructed for each
    vector, and every element buffer that was acquired has been released
    exactly once: the outstanding float and ids buffers are those of
    before the call and no release went to a buffer that was not
    outstanding. *)
Theorem CreateIndex_return_is_balanced (env : Env) (idsJ : list Z)
    (vectorsJ : list nat) (spaceTypeCpp : string) (w w' : World) :
  CreateIndex env idsJ vectorsJ spaceTypeCpp w = (Ok (), w') →
  length idsJ = length vectorsJ
  ∧ made w' = made w + length vectorsJ
  ∧ float_elems w' = float_elems w
  ∧ int_elems w' = int_elems w
  ∧ stray_releases w' = stray_releases w.
Proof.
  intros Hrun.
  pose proof (CreateIndex_account env idsJ vectorsJ spaceTypeCpp w) as Hacc.
  rewrite Hrun in Hacc. tauto.
Qed.

Lemma CreateIndex_return_is_balanced_witness :
  length [1; 2]%Z = length [0; 1]
  ∧ made (CreateIndex (backend true true true true) [1; 2]%Z [0; 1]
            "jaccard_sparse" two_vectors).2
    = made two_vectors + length [0; 1]
  ∧ float_elems (CreateIndex (backend true true true true) [1; 2]%Z [0; 1]
                   "jaccard_sparse" two_vectors).2
    = float_elems two_vectors
  ∧ int_elems (CreateIndex (backend true true true true) [1; 2]%Z [0; 1]
                 "jaccard_sparse" two_vectors).2
    = int_elems two_vectors
  ∧ stray_releases (CreateIndex (backend true true true true) [1; 2]%Z [0; 1]
                      "jaccard_sparse" two_vectors).2
    = stray_releases two_vectors.
Proof.
  apply (CreateIndex_return_is_balanced (backend true true true true)
           [1; 2]%Z [0; 1] "jaccard_sparse" two_vectors
           (CreateIndex (backend true true true true) [1; 2]%Z [0; 1]
              "jaccard_sparse" two_vectors).2).
  vm_compute. reflexivity.
Defined.





(** ** The life of a handle *)

Lemma loaded_heap_restored (h : gmap nat native) n a b c :
  (∀ p, n ≤ p → h !! p = None) →
  delete (S (S n)) (delete n (delete (S n)
    (<[S (S n):=a]> (<[S n:=b]> (<[n:=c]> h))))) = h.
Proof.
  intros Hwf. apply map_eq. intros p.
  destruct (decide (p = S (S n))) as [->|H2];
    [rewrite lookup_delete_eq; symmetry; apply Hwf; lia|].
  rewrite lookup_delete_ne by congruence.
  destruct (decide (p = n)) as [->|H0];
    [rewrite lookup_delete_eq; symmetry; apply Hwf; lia|].
  rewrite lookup_delete_ne by congruence.
  destruct (decide (p = S n)) as [->|H1];
    [rewrite lookup_delete_eq; symmetry; apply Hwf; lia|].
  rewrite lookup_delete_ne by congruence.
  rewrite !lookup_insert_ne by congruence. reflexivity.
Qed.

Lemma Free_after_LoadIndex env spaceTypeCpp w w1 p :
  wf w → LoadIndex env spaceTypeCpp w = (Ok p, w1) →
  p ≠ 0 ∧ heap (Free p w1).2 = heap w ∧ jfloats (Free p w1).2 = jfloats w.
Proof.
  intros Hwf Hrun.
  apply LoadIndex_returns in Hrun as (-> & Hheap & _ & Hj & _).
  split; [lia|].
  unfold Free, delete_IndexWrapper. rewrite decide_False by lia.
  rewrite Hheap, lookup_insert_eq. simpl. split; [|exact Hj].
  rewrite Hheap. apply loaded_heap_restored, Hwf.
Qed.

(** X7.  A handle that [LoadIndex] returns is not null and names a
    wrapper that owns an index object and the space object it was built
    over, created under the requested space type; [Free] of that handle
    is defined and leaves the native heap as it was before [LoadIndex]. *)
Theorem Free_gives_back_what_LoadIndex_built (env : Env)
    (spaceTypeCpp : string) (w w1 : World) (indexPointerJ : nat) :
  wf w →
  LoadIndex env spaceTypeCpp w = (Ok indexPointerJ, w1) →
  indexPointerJ ≠ 0
  ∧ (∃ index space,
       heap w1 !! indexPointerJ = Some (NWrapper index space)
       ∧ heap w1 !! index = Some (NIndex space)
       ∧ heap w1 !! space = Some (NSpace spaceTypeCpp))
  ∧ (Free indexPointerJ w1).1 = Ok ()
  ∧ heap (Free indexPointerJ w1).2 = heap w.
Proof.
  intros Hwf Hrun.
  apply LoadIndex_returns in Hrun as (-> & Hheap & _).
  split; [lia|]. split.
  { exists (S (next w)), (next w). rewrite Hheap.
    rewrite lookup_insert_eq.
    rewrite lookup_insert_ne, lookup_insert_eq by lia.
    rewrite !lookup_insert_ne, lookup_insert_eq by lia. auto. }
  unfold Free, delete_IndexWrapper. rewrite decide_False by lia.
  rewrite Hheap, lookup_insert_eq. simpl. split; [reflexivity|].
  rewrite Hheap. apply loaded_heap_restored, Hwf.
Qed.

Lemma Free_gives_back_what_LoadIndex_built_witness :
  (Free 3 (loaded "l2" [float_one; 0%Z])).1 = Ok ()
  ∧ heap (Free 3 (loaded "l2" [float_one; 0%Z])).2
    = heap (fresh_world [[float_one; 0%Z]]).
Proof.
  apply (Free_gives_back_what_LoadIndex_built (backend true true true true)
           "l2" (fresh_world [[float_one; 0%Z]])
           (loaded "l2" [float_one; 0%Z]) 3);
    [apply wf_fresh_world|vm_compute; reflexivity].
Defined.

(** X8.  After [Free], the handle is dead: a second [Free] of it, and a
    [QueryIndex] on it with a query vector that exists, are undefined
    behaviour (lines 290-291 and 219-221 only test for null). *)
Theorem freed_handle_is_dead (env : Env) (spaceTypeCpp : string)
    (w w1 : World) (indexPointerJ : nat) :
  wf w →
  LoadIndex env spaceTypeCpp w = (Ok indexPointerJ, w1) →
  (Free indexPointerJ (Free indexPointerJ w1).2).1 = Undefined
  ∧ ∀ (env' : Env) (queryVectorJ kJ : nat),
      is_Some (jfloats w !! queryVectorJ) →
      (QueryIndex env' indexPointerJ queryVectorJ kJ
         (Free indexPointerJ w1).2).1 = Undefined.
Proof.
  intros Hwf Hrun.
  destruct (Free_after_LoadIndex env spaceTypeCpp w w1
              indexPointerJ Hwf Hrun) as (Hp & Hheap & Hj).
  assert (heap (Free indexPointerJ w1).2 !! indexPointerJ = None) as Hnone.
  { rewrite Hheap. apply LoadIndex_returns in Hrun as (-> & _).
    apply Hwf. lia. }
  split.
  - unfold Free at 1. unfold delete_IndexWrapper.
    rewrite decide_False by exact Hp. rewrite Hnone. reflexivity.
  - intros env' queryVectorJ kJ [a Ha]. rewrite <- Hj in Ha.
    unfold QueryIndex. rewrite decide_False by exact Hp.
    unfold GetJavaFloatArrayLength, GetFloatArrayElements, deref_IndexWrapper.
    unfold mbind, M_bind. rewrite Ha. cbn [heap with_float_elems].
    rewrite Ha. cbn [heap with_float_elems]. rewrite Hnone. reflexivity.
Qed.

Lemma freed_handle_is_dead_witness :
  (Free 3 (Free 3 (loaded "l2" [float_one; 0%Z])).2).1 = Undefined
  ∧ (QueryIndex (backend true true true true) 3 0 2
       (Free 3 (loaded "l2" [float_one; 0%Z])).2).1 = Undefined.
Proof.
  destruct (freed_handle_is_dead (backend true true true true) "l2"
              (fresh_world [[float_one; 0%Z]]) (loaded "l2" [float_one; 0%Z]) 3)
    as [Hfree Hquery]; [apply wf_fresh_world|vm_compute; reflexivity|].
  split; [exact Hfree|].
  apply (Hquery (backend true true true true) 0 2). vm_compute. eauto.
Defined.

Lemma encode_dense spaceTypeCpp dim (floatArrayCpp : list Z) :
  spaceTypeCpp ≠ "jaccard_sparse" → spaceTypeCpp ≠ "bit_jaccard" →
  Build.encode spaceTypeCpp dim floatArrayCpp = Ok (floatArrayCpp, dim).
Proof.
  intros Hsparse Hbit. unfold Build.encode.
  apply String.eqb_neq in Hsparse, Hbit. rewrite Hsparse, Hbit. reflexivity.
Qed.

(** The whole of [QueryIndex] on a live handle, by outcome. *)
Lemma QueryIndex_account env indexPointerJ queryVectorJ kJ w index space desc :
  wf w → indexPointerJ ≠ 0 →
  heap w !! indexPointerJ = Some (NWrapper index space) →
  heap w !! space = Some (NSpace desc) →
  match QueryIndex env indexPointerJ queryVectorJ kJ w with
  | (Ok results, w') =>
      heap w' = heap w ∧ float_elems w' = float_elems w
      ∧ int_elems w' = int_elems w ∧ stray_releases w' = stray_releases w
      ∧ made w' = S (made w)
      ∧ (isCopy env = true
         ∨ desc ≠ "jaccard_sparse" ∧ desc ≠ "bit_jaccard" →
         jfloats w' = jfloats w)
  | (Throw what, w') =>
      heap w' = heap w ∧ int_elems w' = int_elems w
      ∧ stray_releases w' = stray_releases w
      ∧ (isCopy env = true
         ∨ desc ≠ "jaccard_sparse" ∧ desc ≠ "bit_jaccard" →
         jfloats w' = jfloats w)
      ∧ ((what = "Dimension of vectors for bit_jaccard must be > 1!"
          ∧ desc = "bit_jaccard"
          ∧ float_elems w' = queryVectorJ :: float_elems w)
         ∨ (what ≠ "Dimension of vectors for bit_jaccard must be > 1!"
            ∧ float_elems w' = float_elems w))
  | (Undefined, _) => False
  end.
Proof.
  intros Hwf Hp Hwrapper Hspace.
  unfold QueryIndex. rewrite decide_False by exact Hp.
  unfold GetJavaFloatArrayLength, GetFloatArrayElements, deref_IndexWrapper,
    StrDesc, lift.
  unfold mbind at 1. unfold M_bind at 1.
  destruct (jfloats w !! queryVectorJ) as [a|] eqn:Ha.
  2:{ repeat split. right. split; [discriminate|reflexivity]. }
  assert (desc ≠ "jaccard_sparse" ∧ desc ≠ "bit_jaccard" →
          Build.encode desc (length a) a = Ok (a, length a)) as Hdense
    by (intros [? ?]; apply encode_dense; assumption).
  unfold mbind at 1. unfold M_bind at 1. rewrite Ha.
  unfold mbind at 1. unfold M_bind at 1. cbn [heap with_float_elems].
  rewrite Hwrapper.
  unfold mbind at 1. unfold M_bind at 1. cbn [heap with_float_elems].
  rewrite Hspace.
  unfold mbind at 1. unfold M_bind at 1.
  change (Query.encode desc (length a) a)
    with (Build.encode desc (length a) a).
  pose proof (encode_defined desc a) as Hdef.
  pose proof (encode_throws desc a) as Hthrow.
  destruct (Build.encode desc (length a) a) as [[buf numElems]|what|];
    [|destruct (Hthrow what eq_refl) as (-> & -> & _); simpl;
      repeat split; left; auto|contradiction].
  destruct Hdef as [Hlen HnumElems]. clear Hthrow.
  assert (desc ≠ "jaccard_sparse" ∧ desc ≠ "bit_jaccard" → buf = a) as Hbuf
    by (intros Hd; specialize (Hdense Hd); congruence).
  clear Hdense.
  unfold mbind at 1. unfold M_bind at 1. unfold stored_in_place, modify.
  set (w2 := if isCopy env then with_float_elems (cons queryVectorJ) w
             else with_jfloats (λ arrays, <[queryVectorJ:=buf]> arrays)
                    (with_float_elems (cons queryVectorJ) w)).
  assert (heap w2 = heap w ∧ next w2 = next w ∧ made w2 = made w
          ∧ float_elems w2 = queryVectorJ :: float_elems w
          ∧ int_elems w2 = int_elems w
          ∧ stray_releases w2 = stray_releases w
          ∧ (isCopy env = true
             ∨ desc ≠ "jaccard_sparse" ∧ desc ≠ "bit_jaccard" →
             jfloats w2 = jfloats w))
    as (Hheap & Hnext & Hmade & Hfl & Hint & Hst & Hj).
  { subst w2. destruct (isCopy env); repeat split.
    intros [Hcopy|Hd]; [discriminate Hcopy|]. simpl.
    rewrite (Hbuf Hd). apply list_insert_id, Ha. }
  clearbody w2.
  unfold mbind at 1. unfold M_bind at 1.
  unfold try_catch_rethrow, new_Object, ReleaseFloatArrayElements.
  destruct (object_alloc_ok env (made w2)).
  2:{ rewrite Hfl. rewrite decide_True by (apply elem_of_cons; auto).
      simpl. rewrite Hfl, remove_first_head.
      repeat split; auto. }
  rewrite decide_True by lia. unfold alloc. cbn [heap next made jfloats
    float_elems int_elems stray_releases].
  unfold scoped, object_at, Search, backend_call.
  unfold mbind at 1. unfold M_bind at 1.
  cbn [heap next made jfloats float_elems int_elems stray_releases].
  rewrite Hfl. rewrite decide_True by (apply elem_of_cons; auto).
  unfold mbind at 1. unfold M_bind at 1.
  cbn [heap with_float_elems]. rewrite lookup_insert_eq.
  assert (delete (next w2) (<[next w2:=NObject
            {| obj_id := -1; obj_label := -1; obj_data := take numElems buf |}]>
            (heap w2)) = heap w) as Hback.
  { rewrite <- Hheap. apply delete_insert_id. rewrite Hheap, Hnext.
    apply Hwf. lia. }
  destruct (search_ok env).
  2:{ simpl. rewrite decide_True by reflexivity. repeat split; auto. }
  unfold mbind at 1. unfold M_bind at 1. unfold mbind at 1. unfold M_bind at 1.
  unfold mret at 1. unfold M_ret at 1. unfold mret at 1. unfold M_ret at 1.
  unfold mbind at 1. unfold M_bind at 1. unfold lift.
  set (neighbors := offer_all kJ _).
  destruct neighbors as [K items]. unfold Size. cbn [queue_items].
  pose proof (drain_spec K items []) as Hdrain. cbn [length app] in Hdrain.
  rewrite Hdrain. simpl. rewrite decide_True by reflexivity.
  repeat split; auto.
Qed.

(** X9.  A [QueryIndex] on a live handle never runs into undefined
    behaviour and leaves the native heap as it found it: the query object
    it constructs is deleted on every path.  The element buffer of the
    query vector is released on every path but one, the dimension check
    of a bit_jaccard handle (line 238), after which it is outstanding;
    no release goes to a buffer that was not outstanding. *)
Theorem QueryIndex_on_live_handle (env : Env)
    (indexPointerJ queryVectorJ kJ : nat) (w : World) (index space : nat)
    (desc : string) :
  wf w → indexPointerJ ≠ 0 →
  heap w !! indexPointerJ = Some (NWrapper index space) →
  heap w !! space = Some (NSpace desc) →
  (QueryIndex env indexPointerJ queryVectorJ kJ w).1 ≠ Undefined
  ∧ heap (QueryIndex env indexPointerJ queryVectorJ kJ w).2 = heap w
  ∧ int_elems (QueryIndex env indexPointerJ queryVectorJ kJ w).2 = int_elems w
  ∧ stray_releases (QueryIndex env indexPointerJ queryVectorJ kJ w).2
    = stray_releases w
  ∧ ((QueryIndex env indexPointerJ queryVectorJ kJ w).1
     = Throw "Dimension of vectors for bit_jaccard must be > 1!"
     ∧ desc = "bit_jaccard"
     ∧ float_elems (QueryIndex env indexPointerJ queryVectorJ kJ w).2
       = queryVectorJ :: float_elems w
     ∨ (QueryIndex env indexPointerJ queryVectorJ kJ w).1
       ≠ Throw "Dimension of vectors for bit_jaccard must be > 1!"
     ∧ float_elems (QueryIndex env indexPointerJ queryVectorJ kJ w).2
       = float_elems w).
Proof.
  intros Hwf Hp Hwrapper Hspace.
  pose proof (QueryIndex_account env indexPointerJ queryVectorJ kJ w index
                space desc Hwf Hp Hwrapper Hspace) as Hacc.
  destruct (QueryIndex env indexPointerJ queryVectorJ kJ w)
    as [[results|what|] w']; simpl; [| |contradiction].
  - destruct Hacc as (H1 & H2 & H3 & H4 & _).
    split; [discriminate|]. do 3 (split; [assumption|]).
    right. split; [discriminate|exact H2].
  - destruct Hacc as (H1 & H2 & H3 & _ & [(-> & Hd & Hfl)|[Hne Hfl]]).
    + split; [discriminate|]. do 3 (split; [assumption|]).
      left. split; [reflexivity|]. split; assumption.
    + split; [discriminate|]. do 3 (split; [assumption|]).
      right. split; [congruence|exact Hfl].
Qed.

Lemma QueryIndex_on_live_handle_witness :
  (QueryIndex (backend true true true true) 3 0 2
     (loaded "bit_jaccard" [float_one])).1 ≠ Undefined
  ∧ heap (QueryIndex (backend true true true true) 3 0 2
            (loaded "bit_jaccard" [float_one])).2
    = heap (loaded "bit_jaccard" [float_one]).
Proof.
  destruct (QueryIndex_on_live_handle (backend true true true true) 3 0 2
              (loaded "bit_jaccard" [float_one]) 2 1 "bit_jaccard")
    as (Hdef & Hheap & _).
  - apply (LoadIndex_returns_wf (backend true true true true) "bit_jaccard"
             (fresh_world [[float_one]]) 3);
      [apply wf_fresh_world|vm_compute; reflexivity].
  - lia.
  - vm_compute. reflexivity.
  - vm_compute. reflexivity.
  - split; assumption.
Defined.

(** ** The Java arrays under the dense space types *)

Lemma read_vector_dense env sp vectorsJ dim i arrays :
  sp ≠ "jaccard_sparse" → sp ≠ "bit_jaccard" →
  triple (λ s, jfloats s.1 = arrays) (read_vector env sp vectorsJ dim i)
    (λ _ s, jfloats s.1 = arrays)
    (λ s, jfloats s.1 = arrays) (λ s, jfloats s.1 = arrays).
Proof.
  intros Hsparse Hbit [w l] Hj. simpl in Hj.
  unfold read_vector, in_world, GetObjectArrayElement, GetJavaFloatArrayLength,
    GetFloatArrayElements, stored_in_place, read_idsCpp, get_locals, set_locals,
    modify, ReleaseFloatArrayElements, new_Object, alloc, lift, throw.
  unfold mbind, M_bind, mret, M_ret. simpl.
  destruct (vectorsJ !! i) as [floatArrayJ|]; simpl; [|exact Hj].
  destruct (jfloats w !! floatArrayJ) as [a|] eqn:Ha; simpl; [|exact Hj].
  destruct (decide (dim ≠ length a)); simpl; [exact Hj|].
  rewrite Ha. simpl. rewrite encode_dense by assumption. simpl.
  assert (<[floatArrayJ:=a]> (jfloats w) = arrays) as Hsame
    by (rewrite list_insert_id by exact Ha; exact Hj).
  destruct (idsCpp l) as [ids|]; simpl;
    [|destruct (isCopy env); assumption].
  unfold load. destruct (ids !! i) as [id|]; simpl;
    [|destruct (isCopy env); assumption].
  destruct (isCopy env); simpl;
    (destruct (object_alloc_ok env _); simpl; [|assumption];
     destruct (decide (dim ≤ length a)); simpl; [|assumption];
     rewrite decide_True by (apply elem_of_cons; left; reflexivity); simpl;
     assumption).
Qed.

Lemma CreateIndex_dense_keeps_arrays env idsJ vectorsJ sp arrays :
  sp ≠ "jaccard_sparse" → sp ≠ "bit_jaccard" →
  triple (λ w, jfloats w = arrays) (CreateIndex env idsJ vectorsJ sp)
    (λ _ w, jfloats w = arrays)
    (λ w, jfloats w = arrays) (λ w, jfloats w = arrays).
Proof.
  intros Hsparse Hbit. unfold CreateIndex.
  eapply triple_bind; [apply triple_keeps; auto with keeps|]. intros space.
  eapply triple_scoped with (Q' := λ _ w, jfloats w = arrays)
                            (E' := λ w, jfloats w = arrays); [|auto..].
  cbv zeta. destruct (decide (length idsJ ≠ length vectorsJ));
    [apply triple_throw|].
  eapply triple_bind; [apply triple_keeps; auto with keeps|]. intros dim.
  unfold CreateIndex_try, CreateIndex_cleanup, read_idsCpp.
  repeat first [apply read_vector_dense; assumption | keeps_step].
Qed.

(** X10.  Under a space type other than jaccard_sparse and bit_jaccard
    the element buffers are read and never written: [CreateIndex] and
    [QueryIndex] leave every Java array as it was, however they end, also
    when a buffer is the array's own storage and not a copy. *)
Theorem dense_spaces_leave_arrays_unchanged (env : Env) :
  (∀ (idsJ : list Z) (vectorsJ : list nat) (spaceTypeCpp : string) (w : World),
     spaceTypeCpp ≠ "jaccard_sparse" → spaceTypeCpp ≠ "bit_jaccard" →
     jfloats (CreateIndex env idsJ vectorsJ spaceTypeCpp w).2 = jfloats w)
  ∧ (∀ (indexPointerJ queryVectorJ kJ : nat) (w : World) (index space : nat)
       (desc : string),
       wf w → indexPointerJ ≠ 0 →
       heap w !! indexPointerJ = Some (NWrapper index space) →
       heap w !! space = Some (NSpace desc) →
       desc ≠ "jaccard_sparse" → desc ≠ "bit_jaccard" →
       jfloats (QueryIndex env indexPointerJ queryVectorJ kJ w).2 = jfloats w).
Proof.
  split.
  - intros idsJ vectorsJ sp w Hsparse Hbit.
    pose proof (CreateIndex_dense_keeps_arrays env idsJ vectorsJ sp (jfloats w)
                  Hsparse Hbit w eq_refl) as H.
    destruct (CreateIndex env idsJ vectorsJ sp w) as [[?| |] ?]; exact H.
  - intros p q k w index space desc Hwf Hp Hwrapper Hspace Hsparse Hbit.
    pose proof (QueryIndex_account env p q k w index space desc Hwf Hp
                  Hwrapper Hspace) as H.
    destruct (QueryIndex env p q k w) as [[?| |] ?]; simpl;
      [apply H; auto|apply H; auto|contradiction].
Qed.

Lemma dense_spaces_leave_arrays_unchanged_witness :
  jfloats (CreateIndex (backend false true true true) [1; 2]%Z [0; 1] "l2"
             two_vectors).2 = jfloats two_vectors
  ∧ jfloats (QueryIndex (backend false true true true) 3 0 2
               (loaded "l2" [float_one; 0%Z])).2
    = jfloats (loaded "l2" [float_one; 0%Z]).
Proof.
  destruct (dense_spaces_leave_arrays_unchanged (backend false true true true))
    as [Hcreate Hquery].
  split.
  - apply Hcreate; discriminate.
  - apply (Hquery 3 0 2 (loaded "l2" [float_one; 0%Z]) 2 1 "l2").
    + apply (LoadIndex_returns_wf (backend true true true true) "l2"
               (fresh_world [[float_one; 0%Z]]) 3);
        [apply wf_fresh_world|vm_compute; reflexivity].
    + lia.
    + vm_compute. reflexivity.
    + vm_compute. reflexivity.
    + discriminate.
    + discriminate.
Defined.

(** ** The translation of space-type names *)


Lemma TranslateSpaceType_returns names spaceType t :
  TranslateSpaceType names spaceType = Ok t →
  spaceType ∈ recognised names
  ∧ (t = spaceType
     ∨ t = NEG_DOT_PRODUCT names ∧ spaceType = INNER_PRODUCT names).
Proof.
  unfold recognised, TranslateSpaceType.
  repeat (let H := fresh "H" in
          destruct (String.eqb spaceType _) eqn:H;
          [apply String.eqb_eq in H; intros [= <-]; split;
           [rewrite H at 1; set_solver|auto]|clear H]);
    discriminate.
Qed.




(** X12.  A handle that [LoadIndex] returns for a name other than
    bit_jaccard and jaccard_sparse answers every query without writing to
    the query array, also when the element buffer is the array's own
    storage: whatever the query vector and however the query ends, it is
    free of undefined behaviour, the native heap is that of the loaded
    handle, no element buffer is left outstanding and the Java arrays hold
    what they held before the load. *)
Theorem dense_handle_reads_only (names : Names) (env env' : Env)
    (spaceTypeCpp : string) (queryParams : outcome (list string))
    (w w1 : World) (indexPointerJ queryVectorJ kJ : nat) :
  wf w →
  NEG_DOT_PRODUCT names ≠ "bit_jaccard" →
  NEG_DOT_PRODUCT names ≠ "jaccard_sparse" →
  spaceTypeCpp ≠ "bit_jaccard" → spaceTypeCpp ≠ "jaccard_sparse" →
  LoadIndex_translated names env spaceTypeCpp queryParams w
  = (Ok indexPointerJ, w1) →
  (QueryIndex env' indexPointerJ queryVectorJ kJ w1).1 ≠ Undefined
  ∧ heap (QueryIndex env' indexPointerJ queryVectorJ kJ w1).2 = heap w1
  ∧ float_elems (QueryIndex env' indexPointerJ queryVectorJ kJ w1).2
    = float_elems w
  ∧ jfloats (QueryIndex env' indexPointerJ queryVectorJ kJ w1).2 = jfloats w.
Proof.
  intros Hwf Hn1 Hn2 Hs1 Hs2. unfold LoadIndex_translated, lift.
  unfold mbind, M_bind.
  destruct (TranslateSpaceType names spaceTypeCpp) as [t| |] eqn:Ht;
    [|discriminate..].
  destruct queryParams as [params| |]; [|discriminate..].
  intros Hrun.
  assert (t ≠ "jaccard_sparse" ∧ t ≠ "bit_jaccard") as Hdense.
  { destruct (TranslateSpaceType_returns names spaceTypeCpp t Ht)
      as [_ [->|[-> _]]]; split; assumption. }
  pose proof (LoadIndex_returns_wf env t w indexPointerJ w1 Hwf Hrun) as Hwf1.
  apply LoadIndex_returns in Hrun
    as (-> & Hheap & _ & Hj & Hfl & _).
  assert (heap w1 !! S (S (next w)) = Some (NWrapper (S (next w)) (next w)))
    as Hwrapper by (rewrite Hheap; apply lookup_insert_eq).
  assert (heap w1 !! next w = Some (NSpace t)) as Hspace.
  { rewrite Hheap. rewrite !lookup_insert_ne by lia. apply lookup_insert_eq. }
  pose proof (QueryIndex_account env' (S (S (next w))) queryVectorJ kJ w1
                (S (next w)) (next w) t Hwf1 ltac:(lia) Hwrapper Hspace)
    as Hacc.
  destruct (QueryIndex env' (S (S (next w))) queryVectorJ kJ w1)
    as [[results|what|] w2]; simpl; [| |contradiction].
  - destruct Hacc as (H1 & H2 & _ & _ & _ & H6).
    split; [discriminate|]. split; [exact H1|].
    split; [congruence|]. rewrite H6 by auto. exact Hj.
  - destruct Hacc as (H1 & _ & _ & H4 & [(_ & Hd & _)|[_ H5]]).
    + destruct Hdense as [_ Hd']. contradiction.
    + split; [discriminate|]. split; [exact H1|].
      split; [congruence|]. rewrite H4 by auto. exact Hj.
Qed.

Lemma dense_handle_reads_only_witness :
  (QueryIndex (backend false true true true) 3 0 2
     (LoadIndex_translated knn_jni_names (backend false true true true)
        "innerproduct" (Ok ["efSearch=100"])
        (fresh_world [[float_one; 0%Z]])).2).1 ≠ Undefined
  ∧ jfloats (QueryIndex (backend false true true true) 3 0 2
               (LoadIndex_translated knn_jni_names
                  (backend false true true true) "innerproduct"
                  (Ok ["efSearch=100"]) (fresh_world [[float_one; 0%Z]])).2).2
    = jfloats (fresh_world [[float_one; 0%Z]]).
Proof.
  destruct (dense_handle_reads_only knn_jni_names
              (backend false true true true) (backend false true true true)
              "innerproduct" (Ok ["efSearch=100"])
              (fresh_world [[float_one; 0%Z]])
              (LoadIndex_translated knn_jni_names
                 (backend false true true true) "innerproduct"
                 (Ok ["efSearch=100"]) (fresh_world [[float_one; 0%Z]])).2
              3 0 2)
    as (Hdef & _ & _ & Hj);
    [apply wf_fresh_world|discriminate..|vm_compute; reflexivity|].
  split; assumption.
Defined.

(** ** Batches that [CreateIndex] builds *)

Lemma batch_of_dimension_insert vectorsJ D w arrayJ a buf :
  batch_of_dimension vectorsJ D w →
  jfloats w !! arrayJ = Some a → length buf = length a →
  ∀ h, h ∈ vectorsJ →
    ∃ b, <[arrayJ:=buf]> (jfloats w) !! h = Some b ∧ length b = D.
Proof.
  intros Hbatch Ha Hlen h Hh. destruct (Hbatch h Hh) as (b & Hb & HD).
  destruct (decide (h = arrayJ)) as [->|Hne].
  - exists buf. split; [|congruence].
    apply list_lookup_insert_eq. eapply lookup_lt_Some, Ha.
  - exists b. rewrite list_lookup_insert_ne by congruence. auto.
Qed.

(** One iteration of the loop on such a batch returns, and the batch is
    still one of dimension [D]. *)
Lemma read_vector_returns env sp vectorsJ idsJ D i :
  (∀ n, object_alloc_ok env n = true) →
  (sp = "bit_jaccard" → 2 ≤ D) →
  i < length vectorsJ → length idsJ = length vectorsJ →
  triple (λ s, batch_of_dimension vectorsJ D s.1 ∧ idsCpp s.2 = Some idsJ)
    (read_vector env sp vectorsJ D i)
    (λ _ s, batch_of_dimension vectorsJ D s.1 ∧ idsCpp s.2 = Some idsJ)
    (λ _, False) (λ _, False).
Proof.
  intros Halloc Hbit Hi Hlen [w l] [Hbatch Hids]. simpl in Hbatch, Hids.
  unfold read_vector, in_world, GetObjectArrayElement, GetJavaFloatArrayLength,
    GetFloatArrayElements, stored_in_place, read_idsCpp, get_locals, set_locals,
    modify, ReleaseFloatArrayElements, new_Object, alloc, lift, throw.
  unfold mbind, M_bind, mret, M_ret. simpl.
  destruct (lookup_lt_is_Some_2 vectorsJ i Hi) as [floatArrayJ Hv].
  rewrite Hv. simpl.
  destruct (Hbatch floatArrayJ) as (a & Ha & HD);
    [eapply list_elem_of_lookup_2, Hv|].
  rewrite Ha. simpl. rewrite decide_False by (intros Hne; apply Hne; auto).
  simpl. rewrite Ha. simpl.
  pose proof (encode_defined sp a) as Hdef.
  pose proof (encode_throws sp a) as Hthrow.
  rewrite HD in Hdef, Hthrow.
  destruct (Build.encode sp D a) as [[buf n]|what|]; simpl;
    [|destruct (Hthrow what eq_refl) as (_ & Hsp & Hsmall);
      specialize (Hbit Hsp); lia|contradiction].
  destruct Hdef as [Hbuf Hn]. rewrite Hids. simpl.
  unfold load. destruct (lookup_lt_is_Some_2 idsJ i) as [id Hid]; [lia|].
  rewrite Hid. simpl.
  pose proof (batch_of_dimension_insert vectorsJ D w floatArrayJ a buf
                Hbatch Ha ltac:(congruence)) as Hbatch'.
  destruct (isCopy env); simpl; rewrite Halloc; simpl;
    rewrite decide_True by lia; simpl;
    rewrite decide_True by (apply elem_of_cons; left; reflexivity); simpl;
    (split; [assumption|exact Hids]).
Qed.

(** X13.  [CreateIndex] returns whenever nothing outside it fails and
    the batch is one it accepts: as many ids as vectors, every vector of
    the same dimension [D], and [D] at least 2 under bit_jaccard.  Handles
    may repeat in the batch, and buffers may be the arrays' own storage. *)
Theorem CreateIndex_returns (env : Env) (idsJ : list Z) (vectorsJ : list nat)
    (spaceTypeCpp : string) (D : nat) (w : World) :
  build_succeeds env →
  length idsJ = length vectorsJ →
  batch_of_dimension vectorsJ D w →
  (spaceTypeCpp = "bit_jaccard" → 2 ≤ D) →
  (CreateIndex env idsJ vectorsJ spaceTypeCpp w).1 = Ok ().
Proof.
  intros (Halloc & Hids & Hspace & Hmethod & Hindex & Hsave) Hlen Hbatch Hbit.
  assert (triple (batch_of_dimension vectorsJ D)
            (CreateIndex env idsJ vectorsJ spaceTypeCpp)
            (λ _ _, True) (λ _, False) (λ _, False)) as Hmain.
  2:{ specialize (Hmain w Hbatch).
      destruct (CreateIndex env idsJ vectorsJ spaceTypeCpp w) as [[[]| |] ?];
        [reflexivity|contradiction..]. }
  unfold CreateIndex.
  eapply triple_bind with (Q := λ _, batch_of_dimension vectorsJ D).
  { intros w0 H0. unfold CreateSpace. rewrite Hspace. exact H0. }
  intros space.
  eapply triple_scoped with (Q' := λ _ _, True) (E' := λ _, False);
    [|auto..].
  cbv zeta. rewrite decide_False by (intros Hne; apply Hne; exact Hlen).
  eapply triple_bind with
    (Q := λ dim w0, batch_of_dimension vectorsJ D w0
                    ∧ (vectorsJ ≠ [] → dim = D)).
  { intros w0 H0.
    unfold GetInnerDimensionOf2dJavaFloatArray, GetJavaFloatArrayLength.
    destruct vectorsJ as [|first rest]; [split; [exact H0|contradiction]|].
    destruct (H0 first) as (a & Ha & HD); [apply list_elem_of_here|].
    rewrite Ha. split; [exact H0|]. intros _. exact HD. }
  intros dim. apply triple_run_frame.
  apply triple_try with (E1 := λ _, False); [|intros ? []].
  unfold CreateIndex_try.
  eapply triple_bind with
    (Q := λ ids s, ids = idsJ
                   ∧ batch_of_dimension vectorsJ D s.1
                   ∧ (vectorsJ ≠ [] → dim = D)).
  { intros [w0 l] [[H0 Hdim] _]. simpl in *.
    unfold GetIntArrayElements. rewrite Hids. simpl. auto. }
  intros ids.
  eapply triple_bind with
    (Q := λ _ s, (batch_of_dimension vectorsJ D s.1 ∧ idsCpp s.2 = Some idsJ)
                 ∧ (vectorsJ ≠ [] → dim = D)).
  { intros [w0 l] (-> & H0 & Hdim). simpl in *. auto. }
  intros [].
  eapply triple_bind with (Q := λ _ _, True).
  { intros s [Hs Hdim].
    pose proof (triple_for_range
      (λ _ s, batch_of_dimension vectorsJ D s.1 ∧ idsCpp s.2 = Some idsJ)
      (read_vector env spaceTypeCpp vectorsJ dim) (λ _, False) (λ _, False)
      (length vectorsJ) 0) as Hloop.
    assert (∀ j, 0 ≤ j < 0 + length vectorsJ →
      triple (λ s, batch_of_dimension vectorsJ D s.1 ∧ idsCpp s.2 = Some idsJ)
        (read_vector env spaceTypeCpp vectorsJ dim j)
        (λ _ s, batch_of_dimension vectorsJ D s.1 ∧ idsCpp s.2 = Some idsJ)
        (λ _, False) (λ _, False)) as Hbody.
    { intros j Hj. rewrite Hdim by (intros ->; simpl in Hj; lia).
      apply read_vector_returns; auto; lia. }
    specialize (Hloop Hbody s Hs).
    destruct (for_range _ 0 (length vectorsJ) s) as [[[]| |] ?];
      [exact I|contradiction..]. }
  intros [] [w0 l] _.
  unfold in_world, ReleaseIntArrayElements, CreateMethod, scoped, backend_call,
    get_locals, modify, alloc.
  unfold mbind, M_bind, mret, M_ret.
  rewrite Hmethod, Hindex, Hsave.
  destruct (int_elems w0); simpl; exact I.
Qed.

(** The same array twice, under bit_jaccard, with buffers that are the
    array's own storage. *)
Lemma CreateIndex_returns_witness :
  (CreateIndex (backend false true true true) [1; 2]%Z [0; 0] "bit_jaccard"
     two_vectors).1 = Ok ().
Proof.
  apply (CreateIndex_returns (backend false true true true) [1; 2]%Z [0; 0]
           "bit_jaccard" 2 two_vectors).
  - repeat split.
  - reflexivity.
  - intros arrayJ Hin. exists [float_one; 0%Z].
    apply elem_of_cons in Hin as [->|Hin];
      [split; reflexivity|].
    apply elem_of_cons in Hin as [->|Hin];
      [split; reflexivity|].
    apply elem_of_nil in Hin. contradiction.
  - intros _. lia.
Defined.

(** ** Queries that [QueryIndex] answers *)

(** X14.  On a live handle, with a query vector that exists (of
    dimension at least 2 under bit_jaccard), [QueryIndex] returns whenever
    the query object can be allocated and the search does not fail.  The
    object handed to the search has id and label -1 and holds the encoding
    of the query vector under the handle's space type, and the result is
    the queue the search filled under that object, read from its top
    down. *)
Theorem QueryIndex_returns (env : Env) (indexPointerJ queryVectorJ kJ : nat)
    (w : World) (index space : nat) (desc : string) (a : list Z) :
  wf w → indexPointerJ ≠ 0 →
  heap w !! indexPointerJ = Some (NWrapper index space) →
  heap w !! space = Some (NSpace desc) →
  jfloats w !! queryVectorJ = Some a →
  (desc = "bit_jaccard" → 2 ≤ length a) →
  object_alloc_ok env (made w) = true →
  search_ok env = true →
  ∃ data,
    encoded (Query.encode desc (length a) a) = Ok data
    ∧ (QueryIndex env indexPointerJ queryVectorJ kJ w).1
      = Ok (Some <$> (result_of <$>
              queue_items
                (offer_all kJ
                   (search_hits env
                      {| obj_id := -1; obj_label := -1; obj_data := data |})))).
Proof.
  intros Hwf Hp Hwrapper Hspace Ha Hbit Halloc Hsearch.
  change (Query.encode desc (length a) a)
    with (Build.encode desc (length a) a).
  pose proof (encode_defined desc a) as Hdef.
  pose proof (encode_throws desc a) as Hthrow.
  destruct (Build.encode desc (length a) a) as [[buf numElems]|what|] eqn:Henc;
    [|destruct (Hthrow what eq_refl) as (_ & Hd & Hsmall);
      specialize (Hbit Hd); lia|contradiction].
  exists (take numElems buf). split; [reflexivity|].
  destruct (QueryIndex_searches_encoding env indexPointerJ queryVectorJ kJ w
              index space desc a buf numElems Hp Hwrapper Hspace Ha Henc
              Halloc Hsearch) as (w' & Hrun & _).
  rewrite Hrun. reflexivity.
Qed.

(** A query for the set that holds dimension 1 alone, on a
    jaccard_sparse handle: the object holds the one index 1. *)
Lemma QueryIndex_returns_witness :
  ∃ data,
    encoded (Query.encode "jaccard_sparse" (length [0; float_one]%Z)
               [0; float_one]%Z) = Ok data
    ∧ (QueryIndex (backend true true true true) 3 0 2
         (loaded "jaccard_sparse" [0; float_one]%Z)).1
      = Ok (Some <$> (result_of <$>
              queue_items
                (offer_all 2
                   (search_hits (backend true true true true)
                      {| obj_id := -1; obj_label := -1;
                         obj_data := data |})))).
Proof.
  apply (QueryIndex_returns (backend true true true true) 3 0 2
           (loaded "jaccard_sparse" [0; float_one]%Z) 2 1 "jaccard_sparse"
           [0; float_one]%Z).
  - apply (LoadIndex_returns_wf (backend true true true true) "jaccard_sparse"
             (fresh_world [[0; float_one]%Z]) 3);
      [apply wf_fresh_world|vm_compute; reflexivity].
  - lia.
  - vm_compute. reflexivity.
  - vm_compute. reflexivity.
  - reflexivity.
  - discriminate.
  - reflexivity.
  - reflexivity.
Defined.

(** ** The outcomes of [LoadIndex] *)

(** X15.  How [LoadIndex] ends is decided by the first backend call that
    fails.  It returns exactly when the space, the index object, the
    loading and the query-time parameters all succeed; it runs into
    undefined behaviour exactly when the constructor of the handle throws
    (the space or the index object cannot be constructed); a failure of
    the loading or of the parameters is the only exception it throws, and
    it is the backend's. *)
Theorem LoadIndex_outcomes (env : Env) (spaceTypeCpp : string) (w : World) :
  ((∃ indexPointerJ, (LoadIndex env spaceTypeCpp w).1 = Ok indexPointerJ)
   ↔ create_space_ok env = true ∧ create_method_ok env = true
     ∧ load_index_ok env = true ∧ set_query_time_params_ok env = true)
  ∧ ((LoadIndex env spaceTypeCpp w).1 = Undefined
     ↔ create_space_ok env = false ∨ create_method_ok env = false)
  ∧ (∀ what, (LoadIndex env spaceTypeCpp w).1 = Throw what →
       create_space_ok env = true ∧ create_method_ok env = true
       ∧ (what = "LoadIndex failed" ∧ load_index_ok env = false
          ∨ what = "SetQueryTimeParams failed" ∧ load_index_ok env = true
            ∧ set_query_time_params_ok env = false)).
Proof.
  unfold LoadIndex, run_frame, try_catch_rethrow, new_IndexWrapper, CreateSpace,
    CreateMethod, LoadIndex_cleanup, delete_IndexWrapper, backend_call,
    in_world, set_locals, get_locals, modify, alloc, throw, lift.
  unfold mbind, M_bind.
  destruct (create_space_ok env); simpl.
  2:{ split; [split; [intros [? [=]]|intros (? & _); discriminate]|].
      split; [split; auto|]. intros what [=]. }
  destruct (create_method_ok env); simpl.
  2:{ split; [split; [intros [? [=]]|intros (_ & ? & _); discriminate]|].
      split; [split; auto|]. intros what [=]. }
  destruct (load_index_ok env); simpl.
  - destruct (set_query_time_params_ok env); simpl.
    + split; [split; [auto|eauto]|].
      split; [split; [intros [=]|intros [[=]|[=]]]|]. intros what [=].
    + rewrite lookup_insert_eq. simpl.
      split; [split; [intros [? [=]]|intros (_ & _ & _ & ?); discriminate]|].
      split; [split; [intros [=]|intros [[=]|[=]]]|].
      intros what [= <-]. repeat split. right. repeat split.
  - rewrite lookup_insert_eq. simpl.
    split; [split; [intros [? [=]]|intros (_ & _ & ? & _); discriminate]|].
    split; [split; [intros [=]|intros [[=]|[=]]]|].
    intros what [= <-]. repeat split. left. repeat split.
Qed.
